(** * The dispatch core of the libRETS driver

    A shallow embedding of [lib/librets/connection/base.js] (the callback
    store, the store of non-executed operations and the store of database
    handles), of the request ids of [lib/librets/commands/base_command.js]
    and of the dispatch functions of [lib/librets/db.js].

    Conventions of the embedding.
    - A JavaScript function passed as a callback is a token of type [fn].
      Calling it is recorded in a trace of [effect]s; what the callee does
      when it runs is outside the model.
    - A JavaScript object used as a dictionary is a [gmap] holding the keys
      whose value is defined: reading any other key gives [undefined]. The
      array [Object.keys] returns is an argument of the functions that call
      it, since the order of the keys, and the listing of a key stored with
      the value [undefined], belong to the runtime.
    - What the runtime decides when it compares a string with a number is a
      parameter, the class [JsRuntime].
    - Every function takes the state it reads and returns the state it
      leaves, together with the trace of calls it made.
    - An exception raised by the code itself (a property read on [undefined],
      a call of something that is not a function) is a [Threw] outcome. *)

From stdpp Require Import gmap strings list fin_maps sorting pretty.

(** ** Values shared by all components *)

(** A function value. *)
Definition fn := nat.

(** The second argument of a completion callback: a reply document, whose
    content the core never inspects, or a boolean. *)
Inductive value :=
| VDocument (d : nat)
| VBool (b : bool).

(** A JavaScript [Error] object. *)
Record Error := mkError { message : string }.

(** Modelled from the spec: [utils.toError] lives in [lib/librets/utils.js],
    which is not among the sources; on a string it builds the error object
    carrying that string as message. *)
Definition toError (msg : string) : Error := mkError msg.

Global Instance Error_eq_dec : EqDecision Error.
Proof. solve_decision. Defined.

(** A pooled connection: the fields of it that the core reads. *)
Record Connection := mkConnection {
  socketOptions_host : string;
  socketOptions_port : Z;
  isConnected : bool;
  isCompatible : bool
}.

Global Instance Connection_eq_dec : EqDecision Connection.
Proof. solve_decision. Defined.

(** What a checkout of the connection manager (or a [connection] option)
    holds: [null], an [Error] object, or a connection. *)
Inductive checkout :=
| CNull
| CErr (e : Error)
| CConn (c : Connection).

(** The write concern value [w]: a number, or a string (['majority'], the
    name of a tag set, or any other string a caller passes). *)
Inductive wvalue :=
| WNum (n : Z)
| WStr (s : string).

(** What the JavaScript runtime decides. The comparison [s > 0] on a string
    [s] first converts the string to a number; that conversion belongs to
    the language, not to the driver. [string_gt_zero s] is the value the
    runtime gives to [s > 0]; the development holds for every runtime. *)
Class JsRuntime := { string_gt_zero : string → bool }.

(** A runtime for the examples: it reads a string of decimal digits as the
    number it spells, and takes no other string for a number. *)
Definition is_digit (a : Ascii.ascii) : bool :=
  (48 <=? Ascii.nat_of_ascii a)%nat && (Ascii.nat_of_ascii a <=? 57)%nat.

Definition digits_gt_zero (s : string) : bool :=
  let cs := String.list_ascii_of_string s in
  forallb is_digit cs
  && existsb (λ a, negb (Ascii.nat_of_ascii a =? 48)%nat) cs.

Definition digits_runtime : JsRuntime := {| string_gt_zero := digits_gt_zero |}.

(** The options object of an operation: the fields the core reads or
    writes. *)
Record Options := mkOptions {
  opt_raw : option bool;
  opt_connection : checkout;
  opt_w : option wvalue;
  opt_j : option bool;
  opt_wtimeout : option Z;
  opt_override_used_flag : option bool;
  opt_bufferMaxEntries : option Z
}.

(** The object [{}]. *)
Definition no_options : Options :=
  {| opt_raw := None; opt_connection := CNull; opt_w := None; opt_j := None;
     opt_wtimeout := None; opt_override_used_flag := None;
     opt_bufferMaxEntries := None |}.

(** [options.connection = connection]. *)
Definition set_connection (o : Options) (c : Connection) : Options :=
  {| opt_raw := opt_raw o; opt_connection := CConn c; opt_w := opt_w o;
     opt_j := opt_j o; opt_wtimeout := opt_wtimeout o;
     opt_override_used_flag := opt_override_used_flag o;
     opt_bufferMaxEntries := opt_bufferMaxEntries o |}.

(** ** Request ids ([commands/base_command.js]) *)

(** A command object: its request id, once assigned, and its payload. *)
Record Command := mkCommand {
  requestId : option Z;
  body : nat
}.

(** [getRequestId]: [if (!this.requestId) this.requestId = id++]. The
    counter [id] is module state and is threaded through; the result is the
    id, the command as updated, and the counter. *)
Definition getRequestId (cmd : Command) (id : Z) : Z * Command * Z :=
  match requestId cmd with
  | Some r =>
      if decide (r = 0%Z)
      then (id, {| requestId := Some id; body := body cmd |}, (id + 1)%Z)
      else (r, cmd, id)
  | None => (id, {| requestId := Some id; body := body cmd |}, (id + 1)%Z)
  end.

(** [updateRequestId]: [this.requestId = id++]. *)
Definition updateRequestId (cmd : Command) (id : Z) : Z * Command * Z :=
  (id, {| requestId := Some id; body := body cmd |}, (id + 1)%Z).

(** ** Node's [EventEmitter], as the code relies on it *)

(** A registered listener. [on] stores the function itself; [once] stores a
    wrapper [g] with [g.listener] set to the function. [listeners(type)]
    returns the stored values, so [listeners(id)[0].listener] is the
    function only for a [once] registration. *)
Inductive listener :=
| OnListener (f : fn)
| OnceWrapper (f : fn).

(** The [.listener] property of a stored listener. *)
Definition listener_prop (l : listener) : option fn :=
  match l with
  | OnceWrapper f => Some f
  | OnListener _ => None
  end.

(** The function that runs when the stored listener is called. *)
Definition listener_target (l : listener) : fn :=
  match l with
  | OnceWrapper f => f
  | OnListener f => f
  end.

Global Instance listener_eq_dec : EqDecision listener.
Proof. solve_decision. Defined.

(** ** The trace *)

(** The third argument of an event delivered to a database handle: the
    handle itself (by its position in the store) or the object passed by the
    caller. *)
Record emit_object := mkEmitObject {
  obj_id : nat;
  obj_db : option nat
}.

Inductive payload :=
| PDb (i : nat)
| PObject (o : emit_object).

(** The calls that leave the core. *)
Inductive effect :=
| Call (f : fn) (err : option Error) (doc : option value)
       (conn : option Connection)
    (** a callback called with [(err, doc, conn)]; [None] is [null] or an
        argument that is not passed *)
| ExecuteQueryCommand (db : nat) (db_command : Command) (options : Options)
       (callback : option fn)
    (** [command.executeQueryCommand(db, db_command, options, callback)] *)
| ExecuteInsertCommand (db : nat) (db_command : Command) (options : Options)
       (callback : option fn)
    (** [command.executeInsertCommand(db, db_command, options, callback)] *)
| ConnectionWrite (c : Connection) (db_command : list Command)
    (** [connection.write(db_command, ...)] *)
| NextTickThrow (msg : option Error)
    (** [process.nextTick(function() { throw message })]: the message
        reaches the process as an uncaught exception *)
| DbEmit (i : nat) (event : string) (msg : option Error) (arg : payload)
    (** [_dbs[i].emit(event, message, arg)] *)
| NextTickDbEmit (db : nat) (event : string) (msg : option Error)
    (** [process.nextTick(function() { object.db.emit(event, message, null) })] *)
| ServerConfigClose
    (** [this.serverConfig.close(...)] *).

(** The result of a function that can raise: the value returned, or the
    message of the exception. *)
Inductive outcome (A : Type) :=
| Returned (a : A)
| Threw (msg : string).
Arguments Returned {A} a.
Arguments Threw {A} msg.

(** * The store of non-executed operations
      ([NonExecutedOperationStore] in [connection/base.js]) *)

Module NonExecutedOperationStore.

(** A buffered operation, as [_executeQueryCommand] and
    [_executeInsertCommand] build it. [op_callback] is [None] when the
    caller passed no function. *)
Record command := mkCommandEntry {
  op_type : string;
  op_db_command : Command;
  op_options : Options;
  op_callback : option fn;
  op_db : nat
}.

(** The closure variable [commands]. *)
Record commands := mkCommands {
  q_read : list command;
  q_write_reads : list command;
  q_write : list command
}.

Definition new_store : commands :=
  {| q_read := []; q_write_reads := []; q_write := [] |}.

(** [fireCallbacksWithError]: shift every command off the array, calling
    its callback with the error when it is a function. Returns the array as
    it is left and the calls made. *)
Fixpoint fireCallbacksWithError (error : Error) (cmds : list command)
  : list command * list effect :=
  match cmds with
  | [] => ([], [])
  | cmd :: rest =>
      let '(remaining, calls) := fireCallbacksWithError error rest in
      (remaining,
       match op_callback cmd with
       | Some f => Call f (Some error) None None :: calls
       | None => calls
       end)
  end.

Definition count (s : commands) : nat :=
  length (q_read s) + length (q_write_reads s) + length (q_write s).

Definition write (op : command) (s : commands) : commands :=
  {| q_read := q_read s; q_write_reads := q_write_reads s;
     q_write := q_write s ++ [op] |}.

Definition read_from_writer (op : command) (s : commands) : commands :=
  {| q_read := q_read s; q_write_reads := q_write_reads s ++ [op];
     q_write := q_write s |}.

Definition read (op : command) (s : commands) : commands :=
  {| q_read := q_read s ++ [op]; q_write_reads := q_write_reads s;
     q_write := q_write s |}.

Definition limit_error (numberToFailOn : Z) : Error :=
  toError ("No connection operations buffering limit of "
           +:+ pretty numberToFailOn +:+ " reached").

(** [validateBufferLimit(numberToFailOn)]; [None] is [null] or [undefined].
    Returns the boolean, the queues and the calls made. *)
Definition validateBufferLimit (numberToFailOn : option Z) (s : commands)
  : bool * commands * list effect :=
  match numberToFailOn with
  | None => (true, s, [])
  | Some n =>
      if decide (n = (-1)%Z) then (true, s, [])
      else
        let error := limit_error n in
        if decide (n < Z.of_nat (count s))%Z then
          let '(r, calls1) := fireCallbacksWithError error (q_read s) in
          let '(wr, calls2) := fireCallbacksWithError error (q_write_reads s) in
          let '(w, calls3) := fireCallbacksWithError error (q_write s) in
          (false, {| q_read := r; q_write_reads := wr; q_write := w |},
           calls1 ++ calls2 ++ calls3)
        else (false, s, [])
  end.

(** The loop of [execute_queries] and the first loop of [execute_writes]:
    shift each command, set its connection, call its
    [executeQueryCommand]. *)
Fixpoint drain_query (connection : Connection) (cmds : list command)
  : list command * list effect :=
  match cmds with
  | [] => ([], [])
  | cmd :: rest =>
      let '(remaining, calls) := drain_query connection rest in
      (remaining,
       ExecuteQueryCommand (op_db cmd) (op_db_command cmd)
         (set_connection (op_options cmd) connection) (op_callback cmd)
       :: calls)
  end.

(** The second loop of [execute_writes]. *)
Fixpoint drain_insert (connection : Connection) (cmds : list command)
  : list command * list effect :=
  match cmds with
  | [] => ([], [])
  | cmd :: rest =>
      let '(remaining, calls) := drain_insert connection rest in
      (remaining,
       ExecuteInsertCommand (op_db cmd) (op_db_command cmd)
         (set_connection (op_options cmd) connection) (op_callback cmd)
       :: calls)
  end.

(** [execute_queries]; [checkoutReader] is what [config.checkoutReader()]
    returns. *)
Definition execute_queries (checkoutReader : checkout) (s : commands)
  : commands * list effect :=
  match checkoutReader with
  | CNull | CErr _ => (s, [])
  | CConn connection =>
      let '(r, calls) := drain_query connection (q_read s) in
      ({| q_read := r; q_write_reads := q_write_reads s;
          q_write := q_write s |}, calls)
  end.

(** [execute_writes]; [checkoutWriter] is what [config.checkoutWriter()]
    returns. *)
Definition execute_writes (checkoutWriter : checkout) (s : commands)
  : commands * list effect :=
  match checkoutWriter with
  | CNull | CErr _ => (s, [])
  | CConn connection =>
      let '(wr, calls1) := drain_query connection (q_write_reads s) in
      let '(w, calls2) := drain_insert connection (q_write s) in
      ({| q_read := q_read s; q_write_reads := wr; q_write := w |},
       calls1 ++ calls2)
  end.

(** A call that buffers an operation: which of the three methods, and the
    operation. *)
Inductive enqueue :=
| EnqRead (op : command)
| EnqReadFromWriter (op : command)
| EnqWrite (op : command).

Definition enqueue_one (s : commands) (e : enqueue) : commands :=
  match e with
  | EnqRead op => read op s
  | EnqReadFromWriter op => read_from_writer op s
  | EnqWrite op => write op s
  end.

Definition enqueue_all (es : list enqueue) (s : commands) : commands :=
  foldl enqueue_one s es.

(** The operations a sequence of calls put on each queue, in call order. *)
Definition reads_of (es : list enqueue) : list command :=
  omap (fun e => match e with EnqRead op => Some op | _ => None end) es.

Definition primary_reads_of (es : list enqueue) : list command :=
  omap (fun e => match e with EnqReadFromWriter op => Some op | _ => None end) es.

Definition writes_of (es : list enqueue) : list command :=
  omap (fun e => match e with EnqWrite op => Some op | _ => None end) es.

(** The options a replayed operation is to be dispatched with: those it
    was buffered with, except that the connection is [c]. *)
Definition options_on (c : Connection) (o : Options) : Options :=
  {| opt_raw := opt_raw o; opt_connection := CConn c; opt_w := opt_w o;
     opt_j := opt_j o; opt_wtimeout := opt_wtimeout o;
     opt_override_used_flag := opt_override_used_flag o;
     opt_bufferMaxEntries := opt_bufferMaxEntries o |}.

(** The dispatch a drain owes one operation: the operation's own database,
    command and callback, and its options on the connection [c]. *)
Definition query_dispatch (c : Connection) (cmd : command) : effect :=
  ExecuteQueryCommand (op_db cmd) (op_db_command cmd)
    (options_on c (op_options cmd)) (op_callback cmd).

Definition insert_dispatch (c : Connection) (cmd : command) : effect :=
  ExecuteInsertCommand (op_db cmd) (op_db_command cmd)
    (options_on c (op_options cmd)) (op_callback cmd).

(** The connection a dispatch carries in its options. *)
Definition dispatch_connection (e : effect) : option checkout :=
  match e with
  | ExecuteQueryCommand _ _ o _ | ExecuteInsertCommand _ _ o _ =>
      Some (opt_connection o)
  | _ => None
  end.

(** The failure call a purge makes for one operation. *)
Definition failure_calls (error : Error) (cmds : list command) : list effect :=
  omap (fun cmd =>
          match op_callback cmd with
          | Some f => Some (Call f (Some error) None None)
          | None => None
          end) cmds.

End NonExecutedOperationStore.

(** * Database handles and their store ([DbStore] in [connection/base.js]) *)

(** A [Db] object: the fields the core reads. The constructor of [db.js]
    never assigns [databaseName], so it is [None] on every handle the
    constructor builds. [db_events] is the listener table the handle
    inherits from [EventEmitter], [db_ref] the identity of the object. *)
Record Db := mkDb {
  db_ref : nat;
  databaseName : option string;
  tag : Z;
  openCalled : option bool;
  db_events : gmap string (list listener);
  db_options : Options;
  db_raw : bool;
  bufferMaxEntries : Z;
  _applicationClosed : bool
}.

Definition db_listeners (d : Db) (event : string) : list listener :=
  default [] (db_events d !! event).

Module DbStore.

(** The loop of [add]: is there a handle with [db]'s name. *)
Fixpoint add_found (name : option string) (_dbs : list Db) (found : bool) : bool :=
  match _dbs with
  | [] => found
  | d :: rest =>
      add_found name rest
        (if decide (name = databaseName d) then true else found)
  end.

Definition add (db : Db) (_dbs : list Db) : list Db :=
  if add_found (databaseName db) _dbs false then _dbs else _dbs ++ [db].

Definition reset (_dbs : list Db) : list Db := [].

(** [fetch(databaseName)]: the first handle of that name, or [null]. *)
Fixpoint fetch (name : option string) (_dbs : list Db) : option Db :=
  match _dbs with
  | [] => None
  | d :: rest =>
      if decide (name = databaseName d) then Some d else fetch name rest
  end.

(** The test that lets [_dbs[i]] through the filter:
    [filterDb == null || filterDb.databaseName !== _dbs[i].databaseName
     || filterDb.tag !== _dbs[i].tag]. *)
Definition passes_filter (filterDb : option Db) (d : Db) : bool :=
  match filterDb with
  | None => true
  | Some f =>
      negb (bool_decide (databaseName f = databaseName d))
      || negb (bool_decide (tag f = tag d))
  end.

(** The loop of [emit], from index [i] on: the calls made and whether
    [emitted] was set. *)
Fixpoint emit_loop (event : string) (message : option Error)
    (object : option emit_object) (filterDb : option Db)
    (i : nat) (_dbs : list Db) (emitted : bool) : list effect * bool :=
  match _dbs with
  | [] => ([], emitted)
  | d :: rest =>
      if bool_decide (0 < length (db_listeners d event)) && passes_filter filterDb d
      then
        let arg := match object with None => PDb i | Some o => PObject o end in
        let '(calls, emitted') :=
          emit_loop event message object filterDb (S i) rest true in
        (DbEmit i event message arg :: calls, emitted')
      else emit_loop event message object filterDb (S i) rest emitted
  end.

(** [emit(event, message, object, reset, filterDb, rethrow_if_no_listeners)]. *)
Definition emit (event : string) (message : option Error)
    (object : option emit_object) (reset : bool) (filterDb : option Db)
    (rethrow_if_no_listeners : bool) (_dbs : list Db) : list effect :=
  let emitted := false in
  if negb emitted && rethrow_if_no_listeners then [NextTickThrow message]
  else
    let '(calls, emitted) :=
      emit_loop event message object filterDb 0 _dbs emitted in
    calls ++
    match message, object with
    | Some _, Some o =>
        match obj_db o with
        | Some db =>
            if bool_decide (event = "error") && negb emitted
               && rethrow_if_no_listeners
            then [NextTickDbEmit db event message]
            else []
        | None => []
        end
    | _, _ => []
    end.

End DbStore.

(** * The callback store and the handlers of [Base]
      ([CallbackStore] and [Base.prototype] in [connection/base.js]) *)

(** The metadata stored for a request that was not replied to:
    [{start, raw, connection, exhaust}]. *)
Record info := mkInfo {
  start : Z;
  raw : bool;
  connection : option Connection;
  exhaust : bool
}.

Global Instance info_eq_dec : EqDecision info.
Proof. solve_decision. Defined.

(** [CallbackStore]: the dictionary [_notReplied] and the listener table
    [_events] it inherits from [EventEmitter], both keyed by request id.
    [_notReplied] holds the ids whose info is defined; an id stored with
    the value [undefined] reads like an id that is not there. *)
Record CallbackStore := mkCallbackStore {
  _notReplied : gmap Z info;
  _events : gmap Z (list listener)
}.

Definition new_CallbackStore : CallbackStore :=
  {| _notReplied := ∅; _events := ∅ |}.

(** [notRepliedToIds()], that is [Object.keys(this._notReplied)], as a
    relation: [keys] is an array the call can return for a store in which
    every stored info is defined. It lists each id that has an info once and
    nothing else; the order is left to the runtime. *)
Definition notRepliedToIds (cs : CallbackStore) (keys : list Z) : Prop :=
  NoDup keys ∧ ∀ k, k ∈ keys ↔ is_Some (_notReplied cs !! k).

Definition callbackInfo (cs : CallbackStore) (id : Z) : option info :=
  _notReplied cs !! id.

(** [listeners(id)]. *)
Definition listeners (cs : CallbackStore) (id : Z) : list listener :=
  default [] (_events cs !! id).

(** [once(id, f)]: append the wrapper of [f] to the listeners of [id]. *)
Definition once (id : Z) (f : fn) (cs : CallbackStore) : CallbackStore :=
  {| _notReplied := _notReplied cs;
     _events := <[id := listeners cs id ++ [OnceWrapper f]]> (_events cs) |}.

(** [removeAllListeners(id)], and [delete this._events[id]]. *)
Definition removeAllListeners (id : Z) (cs : CallbackStore) : CallbackStore :=
  {| _notReplied := _notReplied cs; _events := delete id (_events cs) |}.

Definition delete_notReplied (id : Z) (cs : CallbackStore) : CallbackStore :=
  {| _notReplied := delete id (_notReplied cs); _events := _events cs |}.

Definition is_on_listener (l : listener) : bool :=
  match l with OnListener _ => true | OnceWrapper _ => false end.

(** [emit(id, err, null)] on the store: every listener of [id] is called
    with [(err, null)], and the wrappers of [once] unregister themselves. *)
Definition store_emit (id : Z) (err : option Error) (cs : CallbackStore)
  : CallbackStore * list effect :=
  let ls := listeners cs id in
  let kept := filter (fun l => is_on_listener l = true) ls in
  ({| _notReplied := _notReplied cs;
      _events := match kept with
                 | [] => delete id (_events cs)
                 | _ => <[id := kept]> (_events cs)
                 end |},
   map (fun l => Call (listener_target l) err None None) ls).

(** The state of a [Base] object (a server configuration): its three
    stores, the [_used] flag the [Db] constructor sets, and the object it is
    when passed as the third argument of an event. *)
Record Base := mkBase {
  _callBackStore : CallbackStore;
  _commandsStore : NonExecutedOperationStore.commands;
  _dbStore : list Db;
  _used : bool;
  base_object : emit_object
}.

Definition new_Base (o : emit_object) : Base :=
  {| _callBackStore := new_CallbackStore;
     _commandsStore := NonExecutedOperationStore.new_store;
     _dbStore := [];
     _used := false;
     base_object := o |}.

Definition with_callBackStore (b : Base) (cs : CallbackStore) : Base :=
  {| _callBackStore := cs; _commandsStore := _commandsStore b;
     _dbStore := _dbStore b; _used := _used b; base_object := base_object b |}.

Definition with_dbStore (b : Base) (dbs : list Db) : Base :=
  {| _callBackStore := _callBackStore b; _commandsStore := _commandsStore b;
     _dbStore := dbs; _used := _used b; base_object := base_object b |}.

Definition with_commandsStore (b : Base)
    (c : NonExecutedOperationStore.commands) : Base :=
  {| _callBackStore := _callBackStore b; _commandsStore := c;
     _dbStore := _dbStore b; _used := _used b; base_object := base_object b |}.

(** [if(typeof dbs[i].openCalled != 'undefined') dbs[i].openCalled = false]. *)
Definition reset_openCalled (d : Db) : Db :=
  match openCalled d with
  | Some _ =>
      {| db_ref := db_ref d; databaseName := databaseName d; tag := tag d;
         openCalled := Some false; db_events := db_events d;
         db_options := db_options d; db_raw := db_raw d;
         bufferMaxEntries := bufferMaxEntries d;
         _applicationClosed := _applicationClosed d |}
  | None => d
  end.

(** [_emitAcrossAllDbInstances]. *)
Definition _emitAcrossAllDbInstances (filterDb : option Db) (event : string)
    (message : option Error) (object : option emit_object)
    (resetConnection : bool) (rethrow_if_no_listeners : bool) (b : Base)
  : Base * list effect :=
  let dbs := if resetConnection then map reset_openCalled (_dbStore b)
             else _dbStore b in
  (with_dbStore b dbs,
   DbStore.emit event message object resetConnection filterDb
     rethrow_if_no_listeners dbs).

(** The fourth argument of [_registerHandler]: the exhaust flag, or the
    callback when the caller passes four arguments. *)
Inductive exhaust_arg :=
| ExhaustFlag (b : bool)
| ExhaustFunction (f : fn).

(** Lines 287-289 of [_registerHandler] for a command that has its request
    id: [id] is the value both calls of [db_command.getRequestId()] return,
    [now] the time [new Date().getTime()] gives. [once] raises when
    [callback] is not a function. *)
Definition registerHandler_at (id : Z) (raw : bool)
    (connection : option Connection) (exhaust : exhaust_arg)
    (callback : option fn) (now : Z) (b : Base) : outcome Base :=
  let '(callback, exhaust) :=
    match exhaust with
    | ExhaustFunction f => (Some f, false)
    | ExhaustFlag e => (callback, e)
    end in
  match callback with
  | None => Threw "listener must be a function"
  | Some f =>
      let cs := once id f (_callBackStore b) in
      Returned
        (with_callBackStore b
           {| _notReplied :=
                <[id := {| start := now; raw := raw; connection := connection;
                           exhaust := exhaust |}]> (_notReplied cs);
              _events := _events cs |})
  end.

(** [_registerHandler]. The request id is read off the command twice, once
    for the listener (line 287) and once for the metadata (line 289); each
    reading assigns an id from the counter [next_id] when the command has
    none, or has the id 0. [once] raises, before the second reading, when
    [callback] is not a function. *)
Definition _registerHandler (db_command : Command) (raw : bool)
    (connection : option Connection) (exhaust : exhaust_arg)
    (callback : option fn) (now : Z) (next_id : Z) (b : Base)
  : outcome (Base * Command * Z) :=
  let '(callback, exhaust) :=
    match exhaust with
    | ExhaustFunction f => (Some f, false)
    | ExhaustFlag e => (callback, e)
    end in
  let '(id, db_command1, next_id1) := getRequestId db_command next_id in
  match callback with
  | None => Threw "listener must be a function"
  | Some f =>
      let cs := once id f (_callBackStore b) in
      let '(id', db_command2, next_id2) := getRequestId db_command1 next_id1 in
      Returned
        (with_callBackStore b
           {| _notReplied :=
                <[id' := {| start := now; raw := raw; connection := connection;
                            exhaust := exhaust |}]> (_notReplied cs);
              _events := _events cs |},
         db_command2, next_id2)
  end.

(** What [_findHandler] returns: [{info: ..., callback: ...}], the callback
    being the first stored listener or [null]. *)
Record found := mkFound {
  found_info : option info;
  found_callback : option listener
}.

Definition _findHandler (id : Z) (b : Base) : found :=
  let cs := _callBackStore b in
  {| found_info := _notReplied cs !! id;
     found_callback := match listeners cs id with
                       | l :: _ => Some l
                       | [] => None
                       end |}.

(** [_reRegisterHandler(newId, object)]. Reading [object.callback.listener]
    raises when [object.callback] is [null], and [once] raises when that
    property is not a function. When [object.info] is [undefined], line
    301 leaves [newId] with the value [undefined]: every later reading of
    [newId] gives [undefined], as for a key that is not there, and only
    [Object.keys] still lists it. *)
Definition _reRegisterHandler (newId : Z) (object : found) (b : Base)
  : outcome Base :=
  match found_callback object with
  | None => Threw "Cannot read property 'listener' of null"
  | Some l =>
      match listener_prop l with
      | None => Threw "listener must be a function"
      | Some f =>
          let cs := once newId f (_callBackStore b) in
          Returned
            (with_callBackStore b
               {| _notReplied :=
                    match found_info object with
                    | Some i => <[newId := i]> (_notReplied cs)
                    | None => delete newId (_notReplied cs)
                    end;
                  _events := _events cs |})
      end
  end.

(** The message of the exception that reading [info.connection] raises when
    [info] is [undefined]. *)
Definition info_undefined : Error :=
  mkError "Cannot read property 'connection' of undefined".

(** [_callHandler(id, document, err)]. *)
Definition _callHandler (id : Z) (document : option value)
    (err : option Error) (b : Base) : Base * list effect :=
  let cs := _callBackStore b in
  match listeners cs id with
  | [] => (b, [])
  | first :: _ =>
      let info := _notReplied cs !! id in
      let b' := with_callBackStore b
                  (removeAllListeners id (delete_notReplied id cs)) in
      match listener_prop first with
      | None => (b', [])
      | Some callback =>
          match info with
          | Some i => (b', [Call callback err document (connection i)])
          | None =>
              _emitAcrossAllDbInstances None "error" (Some info_undefined)
                (Some (base_object b')) true true b'
          end
      end
  end.

Definition _hasHandler (id : Z) (b : Base) : bool :=
  bool_decide (1 ≤ length (listeners (_callBackStore b) id)).

Definition _removeHandler (id : Z) (b : Base) : Base :=
  with_callBackStore b
    (removeAllListeners id (delete_notReplied id (_callBackStore b))).

(** The loop of [_flushAllCallHandlers] over the keys read at its start. *)
Fixpoint flushAll_loop (keys : list Z) (err : option Error) (b : Base)
  : Base * list effect :=
  match keys with
  | [] => (b, [])
  | k :: rest =>
      let '(b1, calls1) := _callHandler k None err b in
      let '(b2, calls2) := flushAll_loop rest err b1 in
      (b2, calls1 ++ calls2)
  end.

(** [_flushAllCallHandlers(err)]; [keys] is the array
    [Object.keys(this._callBackStore._notReplied)] returns at line 310. *)
Definition _flushAllCallHandlers (keys : list Z) (err : option Error)
    (b : Base) : Base * list effect :=
  flushAll_loop keys err b.

(** The loop of [__executeAllCallbacksWithError]. *)
Fixpoint executeAll_loop (keys : list Z) (err : option Error)
    (cs : CallbackStore) : CallbackStore * list effect :=
  match keys with
  | [] => (cs, [])
  | k :: rest =>
      let '(cs1, calls1) := store_emit k err cs in
      let cs2 := removeAllListeners k (delete_notReplied k cs1) in
      let '(cs3, calls2) := executeAll_loop rest err cs2 in
      (cs3, calls1 ++ calls2)
  end.

(** [__executeAllCallbacksWithError(err)]; [keys] is the array
    [Object.keys(this._callBackStore._notReplied)] returns at line 230. *)
Definition __executeAllCallbacksWithError (keys : list Z)
    (err : option Error) (b : Base) : Base * list effect :=
  let '(cs, calls) := executeAll_loop keys err (_callBackStore b) in
  (with_callBackStore b cs, calls).

(** [_port == port && _host == host] on the connection stored in an info. *)
Definition same_server (host : string) (port : Z) (c : Connection) : bool :=
  bool_decide (socketOptions_port c = port)
  && bool_decide (socketOptions_host c = host).

(** The loop of [__executeAllServerSpecificErrorCallbacks]. Reading
    [info.connection] raises when the key has no info. The state is
    returned with the calls made so far in either case. *)
Fixpoint serverSpecific_loop (keys : list Z) (host : string) (port : Z)
    (err : option Error) (cs : CallbackStore)
  : outcome unit * CallbackStore * list effect :=
  match keys with
  | [] => (Returned tt, cs, [])
  | k :: rest =>
      match _notReplied cs !! k with
      | None =>
          (Threw "Cannot read property 'connection' of undefined", cs, [])
      | Some info =>
          match connection info with
          | Some c =>
              if same_server host port c then
                let '(cs1, calls1) := store_emit k err cs in
                let cs2 := removeAllListeners k (delete_notReplied k cs1) in
                let '(r, cs3, calls2) :=
                  serverSpecific_loop rest host port err cs2 in
                (r, cs3, calls1 ++ calls2)
              else serverSpecific_loop rest host port err cs
          | None => serverSpecific_loop rest host port err cs
          end
      end
  end.

(** [__executeAllServerSpecificErrorCallbacks(host, port, err)]; [keys] is
    the array [Object.keys(this._callBackStore._notReplied)] returns at line
    251. *)
Definition __executeAllServerSpecificErrorCallbacks (keys : list Z)
    (host : string) (port : Z) (err : option Error) (b : Base)
  : outcome unit * Base * list effect :=
  let '(r, cs, calls) :=
    serverSpecific_loop keys host port err (_callBackStore b) in
  (r, with_callBackStore b cs, calls).

(** * The database handle ([db.js]) *)

(** What a caller passes as first argument of the constructor [Db]: the
    server configuration, a string, or nothing. *)
Inductive ctor_serverConfig :=
| AsServer
| AsString (s : string)
| AsUndefined.

(** What a caller passes as second argument: nothing, an options object, or
    a server configuration (which has none of the option properties). *)
Inductive ctor_options :=
| OptionsUndefined
| OptionsObject (o : Options)
| OptionsServer.

Definition set_used (b : Base) : Base :=
  {| _callBackStore := _callBackStore b; _commandsStore := _commandsStore b;
     _dbStore := _dbStore b; _used := true; base_object := base_object b |}.

(** The constructor [Db(serverConfig, options)], for the object identity
    [ref] and the time [now]. [serverConfig._isUsed()] reads [_used]. With a
    string as [serverConfig] the assignments to its properties are ignored
    and [this.serverConfig._dbStore.add(this)] raises; with [undefined] the
    assignment of [logger] raises. *)
Definition Db_new (serverConfig : ctor_serverConfig) (options : ctor_options)
    (ref : nat) (now : Z) (b : Base) : outcome (Db * Base) :=
  let opts := match options with OptionsObject o => o | _ => no_options end in
  let overrideUsedFlag := default false (opt_override_used_flag opts) in
  match serverConfig with
  | AsServer =>
      if negb overrideUsedFlag && _used b
      then Threw "A Server instance cannot be shared across multiple Db instances"
      else
        let b1 := if negb overrideUsedFlag then set_used b else b in
        let db :=
          {| db_ref := ref; databaseName := None; tag := now;
             openCalled := Some false; db_events := ∅;
             db_options := opts;
             db_raw := default false (opt_raw opts);
             bufferMaxEntries := default (-1)%Z (opt_bufferMaxEntries opts);
             _applicationClosed := false |} in
        Returned (db, with_dbStore b1 (DbStore.add db (_dbStore b1)))
  | AsString _ => Threw "Cannot call method 'add' of undefined"
  | AsUndefined => Threw "Cannot set property 'logger' of undefined"
  end.

(** [Db.prototype.db(dbName)]. The call [new Db(dbName, this.serverConfig,
    options)] binds [dbName] to the constructor's [serverConfig] and the
    server configuration to its [options]; the copied options are a third
    argument the constructor does not have. *)
Definition Db_db (self : Db) (dbName : option string) (ref : nat) (now : Z)
    (b : Base) : outcome (Db * Base) :=
  match DbStore.fetch dbName (_dbStore b) with
  | Some db => Returned (db, b)
  | None =>
      Db_new (match dbName with Some s => AsString s | None => AsUndefined end)
        OptionsServer ref now b
  end.

Definition set_applicationClosed (d : Db) (v : bool) : Db :=
  {| db_ref := db_ref d; databaseName := databaseName d; tag := tag d;
     openCalled := openCalled d; db_events := db_events d;
     db_options := db_options d; db_raw := db_raw d;
     bufferMaxEntries := bufferMaxEntries d; _applicationClosed := v |}.

(** [Db.prototype.close()] called without arguments. *)
Definition Db_close (self : Db) : Db * list effect :=
  (set_applicationClosed self false, [ServerConfigClose]).

(** The third argument of [authenticate]: the callback when the options are
    left out, an options object with its [authMechanism], or nothing. *)
Inductive auth_options :=
| AuthFunction (f : fn)
| AuthObject (authMechanism : option string)
| AuthUndefined.

(** Calling [callback(err, result)]; raises when [callback] is not a
    function. *)
Definition call_callback (callback : option fn) (err : option Error)
    (result : option value) : outcome (list effect) :=
  match callback with
  | Some f => Returned [Call f err result None]
  | None => Threw "undefined is not a function"
  end.

(** The body of [authenticate] once [callback] and [options] are settled:
    an [authMechanism] that is missing or empty becomes ['DIGEST']. *)
Definition authenticate_with (callback : option fn)
    (authMechanism : option string) : outcome (list effect) :=
  match authMechanism with
  | None | Some EmptyString =>
      call_callback callback None (Some (VBool true))
  | Some m =>
      if negb (bool_decide (m = "BASIC")) && negb (bool_decide (m = "OAUTH"))
         && negb (bool_decide (m = "DIGEST"))
      then call_callback callback
             (Some (mkError "only BASIC, OAUTH or DIGEST is supported by authMechanism"))
             None
      else call_callback callback None (Some (VBool true))
  end.

(** [Db.prototype.authenticate(username, password, options, callback)]. *)
Definition authenticate (username password : string) (options : auth_options)
    (callback : option fn) : outcome (list effect) :=
  match options with
  | AuthFunction f => authenticate_with (Some f) None
  | AuthObject authMechanism => authenticate_with callback authMechanism
  | AuthUndefined => Threw "Cannot read property 'authMechanism' of undefined"
  end.

(** ** Write concern and the dispatch of writes *)

(** The object [_setWriteConcernHash] builds. *)
Record WriteConcern := mkWriteConcern {
  wc_w : option wvalue;
  wc_j : option bool;
  wc_wtimeout : option Z
}.

Definition _setWriteConcernHash (options : Options) : WriteConcern :=
  {| wc_w := opt_w options;
     wc_j := match opt_j options with Some true => Some true | _ => None end;
     wc_wtimeout := opt_wtimeout options |}.

Definition is_set {A : Type} (o : option A) : bool :=
  match o with Some _ => true | None => false end.

(** [_getWriteConcern(self, options)]. *)
Definition _getWriteConcern (self : Db) (options : Options) : WriteConcern :=
  if is_set (opt_w options) || is_set (opt_j options)
  then _setWriteConcernHash options
  else if is_set (opt_w (db_options self)) || is_set (opt_j (db_options self))
  then _setWriteConcernHash (db_options self)
  else {| wc_w := Some (WNum 1); wc_j := None; wc_wtimeout := None |}.

(** [errorOptions.w > 0 || errorOptions.w == 'majority' || errorOptions.j].
    On a string [w] the comparison with 0 is the runtime's; a number is
    never equal to ['majority']. *)
Definition wants_getLastError {rt : JsRuntime} (errorOptions : WriteConcern)
  : bool :=
  match wc_w errorOptions with
  | Some (WNum n) => bool_decide (0 < n)%Z
  | Some (WStr s) => string_gt_zero s
  | None => false
  end
  || match wc_w errorOptions with
     | Some (WStr s) => bool_decide (s = "majority")
     | _ => false
     end
  || match wc_j errorOptions with Some j => j | None => false end.

(** Modelled from the spec: [DbCommand.createGetLastErrorCommand] lives in
    [lib/librets/commands/db_command.js], which is not among the sources; it
    synthesizes the acknowledgement command, a new command object to which
    no request id was assigned yet. [getLastError_body] stands for its
    payload. *)
Definition getLastError_body : nat := 0.
Definition createGetLastErrorCommand (self : Db) : Command :=
  {| requestId := None; body := getLastError_body |}.

(** [__executeInsertCommand(self, db_command, options, callback)], up to
    and including the call of [connection.write]. [checkoutWriter] is what
    [self.serverConfig.checkoutWriter()] returns. Calling [isCompatible] on
    [null] or on an [Error] object raises. The command written is a list:
    the command alone, or the command followed by the acknowledgement
    command. *)
Definition __executeInsertCommand {rt : JsRuntime} (self : Db)
    (db_command : Command)
    (options : Options) (callback : option fn) (checkoutWriter : checkout)
    (now : Z) (next_id : Z) (b : Base) : outcome (Base * Z * list effect) :=
  let raw := default (db_raw self) (opt_raw options) in
  let connection :=
    match opt_connection options with
    | CNull => checkoutWriter
    | specifiedConnection => specifiedConnection
    end in
  match connection with
  | CNull => Threw "Cannot call method 'isCompatible' of null"
  | CErr _ => Threw "Object has no method 'isCompatible'"
  | CConn c =>
      if negb (isCompatible c) then
        match call_callback callback
                (Some (toError "driver is incompatible with this server version"))
                None with
        | Returned calls => Returned (b, next_id, calls)
        | Threw msg => Threw msg
        end
      else
        match callback with
        | Some f =>
            if wants_getLastError (_getWriteConcern self options) then
              match _registerHandler (createGetLastErrorCommand self) raw
                      (Some c) (ExhaustFunction f) None now next_id b with
              | Returned (b', getLastError, next_id') =>
                  Returned (b', next_id',
                            [ConnectionWrite c [db_command; getLastError]])
              | Threw msg => Threw msg
              end
            else Returned (b, next_id, [ConnectionWrite c [db_command]])
        | None => Returned (b, next_id, [ConnectionWrite c [db_command]])
        end
  end.

(** The function [__executeInsertCommand] hands to [connection.write], run
    by the connection with [err]; [db_command] is the list that was
    written. *)
Definition insert_write_callback (callback : option fn)
    (db_command : list Command) (err : option Error) (next_id : Z) (b : Base)
  : outcome (Base * Z * list effect) :=
  match callback with
  | None => Returned (b, next_id, [])
  | Some _ =>
      match db_command !! 1%nat with
      | None => Threw "Cannot call method 'getRequestId' of undefined"
      | Some getLastError =>
          let '(id, _, next_id') := getRequestId getLastError next_id in
          let '(b', calls) := _callHandler id None err b in
          Returned (b', next_id', calls)
      end
  end.

(** What the methods of the server configuration answer during one
    dispatch. *)
Record ServerConfig := mkServerConfig {
  checkoutWriter : checkout;
  canWrite : bool;
  isAutoReconnect : bool;
  isDestroyed : bool
}.

(** [options.connection], or [null] when it is not a live connection. *)
Definition live_connection (options : Options) : option Connection :=
  match opt_connection options with
  | CConn c => if isConnected c then Some c else None
  | _ => None
  end.

(** [Db.prototype._executeInsertCommand(db_command, options, callback)], at
    its arguments as unpacked. Returns the handle, the server state, the
    request id counter and the calls made. *)
Definition _executeInsertCommand {rt : JsRuntime} (self : Db)
    (db_command : Command)
    (options : Options) (callback : option fn) (config : ServerConfig)
    (now : Z) (next_id : Z) (b : Base)
  : outcome (Db * Base * Z * list effect) :=
  if _applicationClosed self then
    match callback with
    | Some f =>
        Returned (self, b, next_id,
                  [Call f (Some (mkError "db closed by application")) None None])
    | None => Threw "db closed by application"
    end
  else if isDestroyed config then
    match call_callback callback
            (Some (mkError "Connection was destroyed by application")) None with
    | Returned calls => Returned (self, b, next_id, calls)
    | Threw msg => Threw msg
    end
  else
    let connection := live_connection options in
    if negb (is_set connection) && negb (canWrite config)
       && isAutoReconnect config
    then
      let store :=
        NonExecutedOperationStore.write
          {| NonExecutedOperationStore.op_type := "insert";
             NonExecutedOperationStore.op_db_command := db_command;
             NonExecutedOperationStore.op_options := options;
             NonExecutedOperationStore.op_callback := callback;
             NonExecutedOperationStore.op_db := db_ref self |}
          (_commandsStore b) in
      let '(ok, store', calls) :=
        NonExecutedOperationStore.validateBufferLimit
          (Some (bufferMaxEntries self)) store in
      let b' := with_commandsStore b store' in
      if negb ok then
        let '(self', calls') := Db_close self in
        Returned (self', b', next_id, calls ++ calls')
      else Returned (self, b', next_id, calls)
    else if negb (is_set connection) && negb (canWrite config)
            && negb (isAutoReconnect config)
    then
      match call_callback callback (Some (mkError "no open connections"))
              None with
      | Returned calls => Returned (self, b, next_id, calls)
      | Threw msg => Threw msg
      end
    else
      match __executeInsertCommand self db_command options callback
              (checkoutWriter config) now next_id b with
      | Returned (b', next_id', calls) => Returned (self, b', next_id', calls)
      | Threw msg => Threw msg
      end.

(** ** Sequences of calls on the callback store *)

(** A call of [_registerHandler], at the request id of its command, or of
    [_callHandler]. *)
Inductive registry_call :=
| Register (id : Z) (raw : bool) (connection : option Connection)
    (exhaust : bool) (callback : fn) (now : Z)
| Complete (id : Z) (document : option value) (err : option Error).

Definition registry_step (b : Base) (c : registry_call) : Base * list effect :=
  match c with
  | Register id raw connection exhaust callback now =>
      match registerHandler_at id raw connection (ExhaustFlag exhaust)
              (Some callback) now b with
      | Returned b' => (b', [])
      | Threw _ => (b, [])
      end
  | Complete id document err => _callHandler id document err b
  end.

Fixpoint registry_run (cs : list registry_call) (b : Base)
  : Base * list effect :=
  match cs with
  | [] => (b, [])
  | c :: rest =>
      let '(b1, calls1) := registry_step b c in
      let '(b2, calls2) := registry_run rest b1 in
      (b2, calls1 ++ calls2)
  end.

(** Is the effect a call of the function [f]. *)
Definition is_call_of (f : fn) (e : effect) : bool :=
  match e with
  | Call g _ _ _ => bool_decide (f = g)
  | _ => false
  end.

(** How often the function [f] is called in a trace. *)
Definition times_called (f : fn) (calls : list effect) : nat :=
  length (List.filter (is_call_of f) calls).

(** Does the call register the function [f]. *)
Definition registers (f : fn) (c : registry_call) : bool :=
  match c with
  | Register _ _ _ _ g _ => bool_decide (f = g)
  | Complete _ _ _ => false
  end.

(** How often [f] is registered by a sequence of calls. *)
Definition times_registered (f : fn) (cs : list registry_call) : nat :=
  length (List.filter (registers f) cs).

(** How many of the listeners [ls] are wrappers of the function [f]. *)
Definition wrappers_of (f : fn) (ls : list listener) : nat :=
  length (List.filter (fun l => bool_decide (listener_prop l = Some f)) ls).

(** How many wrappers of [f] the listener table holds, over all ids. *)
Definition stored_wrappers (f : fn) (ev : gmap Z (list listener)) : nat :=
  sum_list_with (fun kv => wrappers_of f kv.2) (map_to_list ev).

(** ** The entries a server-specific flush is aimed at *)

(** Does the info stored under [k] hold a connection whose host is [host]
    and whose port is [port]. *)
Definition flush_target (host : string) (port : Z) (cs : CallbackStore)
    (k : Z) : bool :=
  match _notReplied cs !! k with
  | Some i =>
      match connection i with
      | Some c =>
          bool_decide (socketOptions_host c = host
                       ∧ socketOptions_port c = port)
      | None => false
      end
  | None => false
  end.

(** The calls that complete, with [err], the listeners stored under [k]. *)
Definition completion_calls (err : option Error) (cs : CallbackStore)
    (k : Z) : list effect :=
  map (fun l => Call (listener_target l) err None None) (listeners cs k).

(** The calls a flush aimed at [host:port] makes over the keys [ks]. *)
Definition flush_calls (host : string) (port : Z) (err : option Error)
    (cs : CallbackStore) (ks : list Z) : list effect :=
  flat_map (fun k => if flush_target host port cs k
                     then completion_calls err cs k else []) ks.

(** ** The deliveries of a broadcast *)

(** The handle [d] is the one [filterDb] excludes: it has both the name
    and the tag of [filterDb]. *)
Definition excluded_by (filterDb : option Db) (d : Db) : Prop :=
  ∃ f, filterDb = Some f
       ∧ databaseName f = databaseName d ∧ tag f = tag d.

Global Instance excluded_by_dec (filterDb : option Db) (d : Db) :
  Decision (excluded_by filterDb d).
Proof.
  destruct filterDb as [f|].
  - destruct (decide (databaseName f = databaseName d ∧ tag f = tag d))
      as [H|H].
    + left. by exists f.
    + right. intros (f' & [= <-] & H1 & H2). by apply H.
  - right. by intros (f' & ? & _).
Defined.

(** What the broadcast of an event owes the handle at position [i]: one
    delivery when the handle listens to the event and is not the excluded
    handle, none otherwise. *)
Definition delivery (event : string) (message : option Error)
    (object : option emit_object) (filterDb : option Db) (i : nat) (d : Db)
  : list effect :=
  if bool_decide (0 < length (db_listeners d event)
                  ∧ ¬ excluded_by filterDb d)
  then [DbEmit i event message
          (match object with None => PDb i | Some o => PObject o end)]
  else [].

(** The position of the handle a delivery is made to. *)
Definition delivery_index (e : effect) : option nat :=
  match e with DbEmit i _ _ _ => Some i | _ => None end.

(** ** The request id counter and the registry *)

(** The ids under which the registry stores anything were handed out by the
    counter, so they lie below its value [next_id]. *)
Definition ids_below (next_id : Z) (b : Base) : Prop :=
  ∀ k, (next_id ≤ k)%Z →
       _notReplied (_callBackStore b) !! k = None
       ∧ _events (_callBackStore b) !! k = None.

(** The resolved write concern asks for an acknowledgement: [w > 0] (a
    number above 0, or a string the runtime compares as above 0),
    [w = 'majority'], or journaled. *)
Definition acknowledged {rt : JsRuntime} (errorOptions : WriteConcern)
  : Prop :=
  (∃ n, wc_w errorOptions = Some (WNum n) ∧ (0 < n)%Z)
  ∨ (∃ s, wc_w errorOptions = Some (WStr s) ∧ string_gt_zero s = true)
  ∨ wc_w errorOptions = Some (WStr "majority")
  ∨ wc_j errorOptions = Some true.

(** * The dispatch of queries and the closing of a handle ([db.js]) *)

(** The options object of a query: the options of an operation and the two
    properties only [__executeQueryCommand] reads, [onAll] and [exhaust]. *)
Record QueryOptions := mkQueryOptions {
  qo_options : Options;
  qo_onAll : option bool;
  qo_exhaust : option bool
}.

(** The loop of the [onAll] branch of [__executeQueryCommand] over
    [allRawConnections()], from index [i] on. The same command object is
    registered, written and given a new request id at every turn;
    [clock j] is the reading of [new Date().getTime()] at turn [j]. A
    connection that is [null] or an [Error] ends the call with a call of the
    callback. *)
Fixpoint onAll_loop (connections : list checkout) (i : nat) (f : fn)
    (raw0 : bool) (db_command : Command) (clock : nat → Z) (next_id : Z)
    (b : Base) : outcome (Base * Command * Z * list effect) :=
  match connections with
  | [] => Returned (b, db_command, next_id, [])
  | CNull :: _ =>
      Returned (b, db_command, next_id,
                [Call f (Some (mkError "no open connections")) None None])
  | CErr e :: _ =>
      Returned (b, db_command, next_id, [Call f (Some e) None None])
  | CConn c :: rest =>
      match _registerHandler db_command raw0 (Some c) (ExhaustFunction f)
              None (clock i) next_id b with
      | Threw msg => Threw msg
      | Returned (b1, written, next_id1) =>
          let '(_, db_command2, next_id2) := updateRequestId written next_id1 in
          match onAll_loop rest (S i) f raw0 db_command2 clock next_id2 b1 with
          | Returned (b', db_command', next_id', calls) =>
              Returned (b', db_command', next_id',
                        ConnectionWrite c [written] :: calls)
          | Threw msg => Threw msg
          end
      end
  end.

(** [__executeQueryCommand(self, db_command, options, callback)], up to and
    including the calls of [connection.write]. [checkoutReader] is what
    [self.serverConfig.checkoutReader(read)] returns and
    [allRawConnections] what [self.serverConfig.allRawConnections()]
    returns. The result holds the command object as the call leaves it. *)
Definition __executeQueryCommand (self : Db) (db_command : Command)
    (options : QueryOptions) (callback : option fn)
    (checkoutReader : checkout) (allRawConnections : list checkout)
    (clock : nat → Z) (next_id : Z) (b : Base)
  : outcome (Base * Command * Z * list effect) :=
  let raw0 := default (db_raw self) (opt_raw (qo_options options)) in
  let onAll := default false (qo_onAll options) in
  let specifiedConnection := opt_connection (qo_options options) in
  match callback with
  | Some f =>
      if negb onAll then
        match specifiedConnection with
        | CErr e =>
            Returned (b, db_command, next_id, [Call f (Some e) None None])
        | _ =>
            let connection :=
              match specifiedConnection with
              | CNull => checkoutReader
              | specified => specified
              end in
            match connection with
            | CNull =>
                Returned (b, db_command, next_id,
                          [Call f (Some (mkError "no open connections"))
                             None None])
            | CErr e =>
                Returned (b, db_command, next_id, [Call f (Some e) None None])
            | CConn c =>
                let exhaust0 := default false (qo_exhaust options) in
                match _registerHandler db_command raw0 (Some c)
                        (ExhaustFlag exhaust0) (Some f) (clock 0) next_id b with
                | Returned (b', written, next_id') =>
                    Returned (b', written, next_id',
                              [ConnectionWrite c [written]])
                | Threw msg => Threw msg
                end
            end
        end
      else onAll_loop allRawConnections 0 f raw0 db_command clock next_id b
  | None =>
      let connection :=
        match specifiedConnection with
        | CNull => checkoutReader
        | specified => specified
        end in
      match connection with
      | CNull | CErr _ => Returned (b, db_command, next_id, [])
      | CConn c =>
          Returned (b, db_command, next_id, [ConnectionWrite c [db_command]])
      end
  end.

(** The function the first branch of [__executeQueryCommand] hands to
    [connection.write], run by the connection with [err]; [db_command] is the
    command object as it is then. *)
Definition query_write_callback (db_command : Command) (err : option Error)
    (next_id : Z) (b : Base) : Base * Command * Z * list effect :=
  match err with
  | None => (b, db_command, next_id, [])
  | Some _ =>
      let '(id, db_command', next_id') := getRequestId db_command next_id in
      let '(b', calls) := _callHandler id None err b in
      (b', db_command', next_id', calls)
  end.

(** The function the [onAll] branch hands to [connection.write]:
    [numberOfEntries] is the countdown the closures share. Returns the
    countdown as it is left. *)
Definition onAll_write_callback (f : fn) (db_command : Command)
    (err : option Error) (numberOfEntries : Z) (next_id : Z) (b : Base)
  : Base * Command * Z * Z * list effect :=
  let numberOfEntries' := (numberOfEntries - 1)%Z in
  let '(b', db_command', next_id') :=
    match err with
    | Some _ =>
        let '(id, db_command', next_id') := getRequestId db_command next_id in
        (_removeHandler id b, db_command', next_id')
    | None => (b, db_command, next_id)
    end in
  (b', db_command', numberOfEntries', next_id',
   if decide (numberOfEntries' ≤ 0)%Z then [Call f err None None] else []).

(** The countdown over the reports [errs] of the writes of one broadcast, the
    command object keeping the request id it has. *)
Fixpoint onAll_reports (f : fn) (db_command : Command)
    (errs : list (option Error)) (numberOfEntries : Z) (next_id : Z)
    (b : Base) : Base * Z * list effect :=
  match errs with
  | [] => (b, numberOfEntries, [])
  | err :: rest =>
      let '(b1, db_command1, n1, next_id1, calls1) :=
        onAll_write_callback f db_command err numberOfEntries next_id b in
      let '(b2, n2, calls2) := onAll_reports f db_command1 rest n1 next_id1 b1 in
      (b2, n2, calls1 ++ calls2)
  end.

(** The first argument of [Db.prototype.close]: the callback, a boolean, or
    anything else. *)
Inductive close_arg :=
| CloseFunction (f : fn)
| CloseBoolean (v : bool)
| CloseOther.

(** [Db.prototype.close(forceClose, callback)]: the handle, the callback
    handed on to [serverConfig.close], and the call made. *)
Definition Db_close_with (forceClose : close_arg) (callback : option fn)
    (self : Db) : Db * option fn * list effect :=
  (set_applicationClosed self
     (match forceClose with CloseBoolean v => v | _ => false end),
   match forceClose with CloseFunction f => Some f | _ => callback end,
   [ServerConfigClose]).

Definition set_openCalled (d : Db) (v : bool) : Db :=
  {| db_ref := db_ref d; databaseName := databaseName d; tag := tag d;
     openCalled := Some v; db_events := db_events d;
     db_options := db_options d; db_raw := db_raw d;
     bufferMaxEntries := bufferMaxEntries d;
     _applicationClosed := _applicationClosed d |}.

(** The function [close] hands to [serverConfig.close], run with
    [(err, result)]. *)
Definition close_callback (callback : option fn) (err : option Error)
    (result : option value) (self : Db) : Db * list effect :=
  (set_openCalled self false,
   match callback with
   | Some f => [Call f err result None]
   | None => []
   end).

(** ** States and sequences the properties speak of *)

(** Every request id that has metadata has a listener, and conversely. *)
Definition registry_consistent (cs : CallbackStore) : Prop :=
  ∀ k, is_Some (_notReplied cs !! k) ↔ listeners cs k ≠ [].

(** The calls on the registry that take a handler out of it or put one in. *)
Inductive registry_op :=
| OpRegister (id : Z) (raw0 : bool) (conn : option Connection)
    (exhaust0 : exhaust_arg) (callback : option fn) (now : Z)
| OpCallHandler (id : Z) (document : option value) (err : option Error)
| OpRemoveHandler (id : Z)
| OpFlushAll (keys : list Z) (err : option Error)
| OpExecuteAll (keys : list Z) (err : option Error)
| OpServerSpecific (keys : list Z) (host : string) (port : Z)
    (err : option Error).

Definition registry_apply (b : Base) (op : registry_op) : Base :=
  match op with
  | OpRegister id raw0 conn exhaust0 callback now =>
      match registerHandler_at id raw0 conn exhaust0 callback now b with
      | Returned b' => b'
      | Threw _ => b
      end
  | OpCallHandler id document err => (_callHandler id document err b).1
  | OpRemoveHandler id => _removeHandler id b
  | OpFlushAll keys err => (_flushAllCallHandlers keys err b).1
  | OpExecuteAll keys err => (__executeAllCallbacksWithError keys err b).1
  | OpServerSpecific keys host port err =>
      (__executeAllServerSpecificErrorCallbacks keys host port err b).1.2
  end.

(** The call [_callHandler] makes for the id [k]: the function of its first
    listener, with the error and the connection stored for [k]. *)
Definition first_handler_call (err : option Error) (cs : CallbackStore)
    (k : Z) : list effect :=
  match listeners cs k, _notReplied cs !! k with
  | l :: _, Some i =>
      match listener_prop l with
      | Some f => [Call f err None (connection i)]
      | None => []
      end
  | _, _ => []
  end.

(** No handle of the store has a name: the stores the constructor builds. *)
Definition unnamed_handles (_dbs : list Db) : Prop :=
  ∀ d, d ∈ _dbs → databaseName d = None.

(** The value the constructor reads for [override_used_flag]. *)
Definition overrides_used_flag (options : ctor_options) : bool :=
  match options with
  | OptionsObject o => default false (opt_override_used_flag o)
  | _ => false
  end.

(** The third argument of the event the handle at position [i] is sent. *)
Definition emit_arg (object : option emit_object) (i : nat) : payload :=
  match object with None => PDb i | Some o => PObject o end.

(** * The client ([libRETS_client.js]) *)

(** The constructor [libRETSClient(serverConfig, options)]:
    [serverConfig_given] says whether [serverConfig] is not [null]. The
    call [new Db('test', serverConfig, options)] binds ['test'] to the
    constructor's [serverConfig] and the server configuration to its
    [options]. Returns the handle stored in [_db], if any. *)
Definition libRETSClient (serverConfig_given : bool) (ref : nat) (now : Z)
    (b : Base) : outcome (option Db * Base) :=
  if serverConfig_given then
    match Db_new (AsString "test") OptionsServer ref now b with
    | Returned (db, b') => Returned (Some db, b')
    | Threw msg => Threw msg
    end
  else Returned (None, b).

(** The error a broadcast reports for a connection that is [null] or an
    [Error]. *)
Definition connection_error (c : checkout) : option Error :=
  match c with
  | CNull => Some (mkError "no open connections")
  | CErr e => Some e
  | CConn _ => None
  end.

(** * Properties of the store of non-executed operations *)

Section buffer_properties.
Import NonExecutedOperationStore.

Lemma fireCallbacksWithError_spec (error : Error) (cmds : list command) :
  fireCallbacksWithError error cmds = ([], failure_calls error cmds).
Proof.
  induction cmds as [|cmd rest IH]; simpl; [done|].
  rewrite IH. unfold failure_calls at 2. simpl.
  by destruct (op_callback cmd).
Qed.

Lemma drain_query_spec (c : Connection) (cmds : list command) :
  drain_query c cmds = ([], map (query_dispatch c) cmds).
Proof.
  induction cmds as [|cmd rest IH]; simpl; [done|]. by rewrite IH.
Qed.

Lemma drain_insert_spec (c : Connection) (cmds : list command) :
  drain_insert c cmds = ([], map (insert_dispatch c) cmds).
Proof.
  induction cmds as [|cmd rest IH]; simpl; [done|]. by rewrite IH.
Qed.

(** The unlimited sentinel, [-1] or a missing limit, always reports
    success and leaves the queues alone. *)
Lemma validateBufferLimit_unlimited (s : commands) :
  validateBufferLimit None s = (true, s, [])
  ∧ validateBufferLimit (Some (-1)%Z) s = (true, s, []).
Proof. done. Qed.

(** Past the limit every callback of the three queues is called with the
    limit error, the queues are left empty and the check reports failure. *)
Lemma validateBufferLimit_exceeded (n : Z) (s : commands) :
  n ≠ (-1)%Z → (n < Z.of_nat (count s))%Z →
  validateBufferLimit (Some n) s =
    (false, new_store,
     failure_calls (limit_error n) (q_read s)
     ++ failure_calls (limit_error n) (q_write_reads s)
     ++ failure_calls (limit_error n) (q_write s)).
Proof.
  intros Hn Hlt. unfold validateBufferLimit.
  destruct (decide (n = (-1)%Z)) as [|_]; [done|].
  destruct (decide (n < Z.of_nat (count s))%Z) as [_|]; [|done].
  by rewrite !fireCallbacksWithError_spec.
Qed.

(** With a limit set, the check reports failure whatever the queues hold. *)
Lemma validateBufferLimit_limited (n : Z) (s : commands) :
  n ≠ (-1)%Z → (validateBufferLimit (Some n) s).1.1 = false.
Proof.
  intros Hn. unfold validateBufferLimit.
  destruct (decide (n = (-1)%Z)) as [|_]; [done|].
  destruct (decide (n < Z.of_nat (count s))%Z); [|done].
  by rewrite !fireCallbacksWithError_spec.
Qed.

Lemma enqueue_all_queues (es : list enqueue) (s : commands) :
  q_read (enqueue_all es s) = q_read s ++ reads_of es
  ∧ q_write_reads (enqueue_all es s) = q_write_reads s ++ primary_reads_of es
  ∧ q_write (enqueue_all es s) = q_write s ++ writes_of es.
Proof.
  revert s. induction es as [|e es IH]; intros s.
  - unfold reads_of, primary_reads_of, writes_of. simpl.
    by rewrite !app_nil_r.
  - unfold enqueue_all in *. simpl.
    destruct (IH (enqueue_one s e)) as (Hr & Hp & Hw).
    rewrite Hr, Hp, Hw.
    unfold reads_of, primary_reads_of, writes_of.
    destruct e; simpl; rewrite <- ?app_assoc; done.
Qed.

End buffer_properties.

(** C1, at a store within its limit: with a limit of 5 and a single
    buffered write, [validateBufferLimit] reports failure although nothing
    was purged, and [_executeInsertCommand], buffering the first write of a
    handle whose [bufferMaxEntries] is 5, goes on to close the handle. *)
Theorem validateBufferLimit_within_limit_reports_failure {rt : JsRuntime} :
  let op := {| NonExecutedOperationStore.op_type := "insert";
               NonExecutedOperationStore.op_db_command :=
                 {| requestId := None; body := 7 |};
               NonExecutedOperationStore.op_options := no_options;
               NonExecutedOperationStore.op_callback := Some 1;
               NonExecutedOperationStore.op_db := 0 |} in
  let s := NonExecutedOperationStore.write op
             NonExecutedOperationStore.new_store in
  let self := {| db_ref := 0; databaseName := None; tag := 0;
                 openCalled := Some true; db_events := ∅;
                 db_options := no_options; db_raw := false;
                 bufferMaxEntries := 5; _applicationClosed := false |} in
  let config := {| checkoutWriter := CNull; canWrite := false;
                   isAutoReconnect := true; isDestroyed := false |} in
  let b := new_Base {| obj_id := 0; obj_db := None |} in
  NonExecutedOperationStore.count s = 1
  ∧ NonExecutedOperationStore.validateBufferLimit (Some 5%Z) s = (false, s, [])
  ∧ _executeInsertCommand self {| requestId := None; body := 7 |} no_options
      (Some 1) config 0 1 b
    = Returned (self, with_commandsStore b s, 1%Z, [ServerConfigClose]).
Proof. vm_compute. done. Qed.

(** C6: operations buffered by any sequence of calls are dispatched by the
    drains in the order of the calls that buffered them: [execute_queries]
    dispatches the plain reads, [execute_writes] the reads routed to the
    writer and then the writes, each with its own database, command,
    callback and options except that the connection in the options is the
    one connection checked out for the drain, and the drained queues are
    left empty. *)
Theorem drain_dispatches_in_enqueue_order
    (es : list NonExecutedOperationStore.enqueue) (c : Connection) :
  let s := NonExecutedOperationStore.enqueue_all es
             NonExecutedOperationStore.new_store in
  NonExecutedOperationStore.execute_queries (CConn c) s =
    ({| NonExecutedOperationStore.q_read := [];
        NonExecutedOperationStore.q_write_reads :=
          NonExecutedOperationStore.primary_reads_of es;
        NonExecutedOperationStore.q_write :=
          NonExecutedOperationStore.writes_of es |},
     map (NonExecutedOperationStore.query_dispatch c)
       (NonExecutedOperationStore.reads_of es))
  ∧ NonExecutedOperationStore.execute_writes (CConn c) s =
    ({| NonExecutedOperationStore.q_read :=
          NonExecutedOperationStore.reads_of es;
        NonExecutedOperationStore.q_write_reads := [];
        NonExecutedOperationStore.q_write := [] |},
     map (NonExecutedOperationStore.query_dispatch c)
       (NonExecutedOperationStore.primary_reads_of es)
     ++ map (NonExecutedOperationStore.insert_dispatch c)
          (NonExecutedOperationStore.writes_of es))
  ∧ (∀ e, e ∈ (NonExecutedOperationStore.execute_queries (CConn c) s).2
           ∨ e ∈ (NonExecutedOperationStore.execute_writes (CConn c) s).2 →
          NonExecutedOperationStore.dispatch_connection e = Some (CConn c)).
Proof.
  intros s.
  destruct (enqueue_all_queues es NonExecutedOperationStore.new_store)
    as (Hr & Hp & Hw).
  simpl in Hr, Hp, Hw. fold s in Hr, Hp, Hw.
  unfold NonExecutedOperationStore.execute_queries,
    NonExecutedOperationStore.execute_writes.
  rewrite Hr, Hp, Hw, !drain_query_spec, drain_insert_spec.
  split; [done|]. split; [done|].
  intros e. simpl. rewrite elem_of_app, !list_elem_of_fmap.
  intros [(op & -> & _)|[(op & -> & _)|(op & -> & _)]]; done.
Qed.

Lemma drain_dispatches_in_enqueue_order_witness :
  let c := {| socketOptions_host := "rets.example.org";
              socketOptions_port := 6103;
              isConnected := true; isCompatible := true |} in
  let op t n cb := {| NonExecutedOperationStore.op_type := t;
                      NonExecutedOperationStore.op_db_command :=
                        {| requestId := None; body := n |};
                      NonExecutedOperationStore.op_options := no_options;
                      NonExecutedOperationStore.op_callback := cb;
                      NonExecutedOperationStore.op_db := 0 |} in
  let on_c := {| opt_raw := None; opt_connection := CConn c; opt_w := None;
                 opt_j := None; opt_wtimeout := None;
                 opt_override_used_flag := None;
                 opt_bufferMaxEntries := None |} in
  let s := NonExecutedOperationStore.enqueue_all
             [NonExecutedOperationStore.EnqWrite (op "insert" 1 (Some 10));
              NonExecutedOperationStore.EnqRead (op "query" 2 (Some 20));
              NonExecutedOperationStore.EnqReadFromWriter
                (op "query" 3 (Some 30));
              NonExecutedOperationStore.EnqWrite (op "insert" 4 None)]
             NonExecutedOperationStore.new_store in
  (NonExecutedOperationStore.execute_writes (CConn c) s).2
  = [ExecuteQueryCommand 0 {| requestId := None; body := 3 |} on_c (Some 30);
     ExecuteInsertCommand 0 {| requestId := None; body := 1 |} on_c (Some 10);
     ExecuteInsertCommand 0 {| requestId := None; body := 4 |} on_c None]
  ∧ NonExecutedOperationStore.dispatch_connection
      (ExecuteQueryCommand 0 {| requestId := None; body := 2 |} on_c (Some 20))
    = Some (CConn c).
Proof.
  intros c op on_c s.
  destruct (drain_dispatches_in_enqueue_order
              [NonExecutedOperationStore.EnqWrite (op "insert" 1 (Some 10));
               NonExecutedOperationStore.EnqRead (op "query" 2 (Some 20));
               NonExecutedOperationStore.EnqReadFromWriter
                 (op "query" 3 (Some 30));
               NonExecutedOperationStore.EnqWrite (op "insert" 4 None)] c)
    as (H1 & H2 & H3).
  split.
  - exact (f_equal snd H2).
  - apply H3. left. rewrite H1. simpl. left.
Defined.

(** * Properties of the callback store *)

Section registry_properties.

Lemma stored_wrappers_delete (f : fn) (ev : gmap Z (list listener)) (k : Z) :
  stored_wrappers f (delete k ev) + wrappers_of f (default [] (ev !! k))
  = stored_wrappers f ev.
Proof.
  unfold stored_wrappers. destruct (ev !! k) as [old|] eqn:Hk; simpl.
  - rewrite <- (map_to_list_delete ev k old Hk). simpl. lia.
  - rewrite delete_id by done. unfold wrappers_of. simpl. lia.
Qed.

Lemma stored_wrappers_insert (f : fn) (ev : gmap Z (list listener)) (k : Z)
    (ls : list listener) :
  stored_wrappers f (<[k := ls]> ev) + wrappers_of f (default [] (ev !! k))
  = wrappers_of f ls + stored_wrappers f ev.
Proof.
  rewrite <- (stored_wrappers_delete f ev k).
  rewrite <- (insert_delete_eq ev). unfold stored_wrappers.
  rewrite map_to_list_insert by apply lookup_delete_eq. simpl. lia.
Qed.

Lemma wrappers_of_app (f : fn) (l1 l2 : list listener) :
  wrappers_of f (l1 ++ l2) = wrappers_of f l1 + wrappers_of f l2.
Proof. unfold wrappers_of. by rewrite List.filter_app, length_app. Qed.

Lemma times_called_app (f : fn) (l1 l2 : list effect) :
  times_called f (l1 ++ l2) = times_called f l1 + times_called f l2.
Proof. unfold times_called. by rewrite List.filter_app, length_app. Qed.

(** [_emitAcrossAllDbInstances] with the rethrow flag set calls no
    callback and leaves the callback store alone. *)
Lemma emitAcross_rethrow (filterDb : option Db) (event : string)
    (message : option Error) (object : option emit_object) (reset : bool)
    (b : Base) :
  let r := _emitAcrossAllDbInstances filterDb event message object reset true b in
  _callBackStore r.1 = _callBackStore b ∧ r.2 = [NextTickThrow message].
Proof. done. Qed.

(** One call of the registry: the calls of [f] it makes are paid for by
    wrappers of [f] that leave the listener table. *)
Lemma registry_step_accounting (f : fn) (b : Base) (c : registry_call) :
  let r := registry_step b c in
  times_called f r.2 + stored_wrappers f (_events (_callBackStore r.1))
  ≤ times_registered f [c] + stored_wrappers f (_events (_callBackStore b)).
Proof.
  destruct c as [id raw0 conn ex g now|id doc err]; simpl.
  - unfold times_registered, times_called. simpl.
    pose proof (stored_wrappers_insert f (_events (_callBackStore b)) id
                  (listeners (_callBackStore b) id ++ [OnceWrapper g])) as H.
    rewrite wrappers_of_app in H. unfold listeners in H at 2.
    unfold wrappers_of at 3 in H. unfold listeners in *. simpl in H |- *.
    repeat case_bool_decide; simplify_eq; simpl in *; lia.
  - unfold _callHandler.
    destruct (listeners (_callBackStore b) id) as [|first rest] eqn:Hls;
      simpl; [lia|].
    pose proof (stored_wrappers_delete f (_events (_callBackStore b)) id) as H.
    fold (listeners (_callBackStore b) id) in H. rewrite Hls in H.
    change (first :: rest) with ([first] ++ rest) in H.
    rewrite wrappers_of_app in H.
    unfold times_registered. simpl.
    destruct (listener_prop first) as [callback|] eqn:Hprop; simpl.
    + destruct (_notReplied (_callBackStore b) !! id) as [i|]; simpl.
      * unfold times_called. simpl.
        unfold wrappers_of in H at 1. simpl in H. rewrite Hprop in H.
        repeat case_bool_decide; simplify_eq; simpl in *; lia.
      * unfold times_called. simpl. lia.
    + unfold times_called. simpl. lia.
Qed.

Lemma registry_run_accounting (f : fn) (cs : list registry_call) (b : Base) :
  let r := registry_run cs b in
  times_called f r.2 + stored_wrappers f (_events (_callBackStore r.1))
  ≤ times_registered f cs + stored_wrappers f (_events (_callBackStore b)).
Proof.
  revert b. induction cs as [|c rest IH]; intros b; simpl; [lia|].
  pose proof (registry_step_accounting f b c) as Hstep.
  destruct (registry_step b c) as [b1 calls1] eqn:Hs. simpl in Hstep.
  specialize (IH b1).
  destruct (registry_run rest b1) as [b2 calls2] eqn:Hr. simpl in IH |- *.
  rewrite times_called_app.
  change (c :: rest) with ([c] ++ rest).
  unfold times_registered in *. rewrite List.filter_app, length_app. lia.
Qed.

Lemma stored_wrappers_empty (f : fn) : stored_wrappers f ∅ = 0.
Proof. unfold stored_wrappers. by rewrite map_to_list_empty. Qed.

End registry_properties.

Lemma callHandler_unregistered (b : Base) (id : Z) (doc : option value)
    (err : option Error) :
  listeners (_callBackStore b) id = [] → _callHandler id doc err b = (b, []).
Proof. intros H. unfold _callHandler. by rewrite H. Qed.

Lemma callHandler_removes (b : Base) (id : Z) (doc : option value)
    (err : option Error) :
  listeners (_callBackStore b) id ≠ [] →
  let b' := (_callHandler id doc err b).1 in
  _notReplied (_callBackStore b') !! id = None
  ∧ _events (_callBackStore b') !! id = None.
Proof.
  intros H. unfold _callHandler.
  destruct (listeners (_callBackStore b) id) as [|first rest]; [done|].
  destruct (listener_prop first);
    [destruct (_notReplied (_callBackStore b) !! id)|]; simpl;
    by rewrite !lookup_delete_eq.
Qed.

Lemma getRequestId_again (cmd : Command) (next_id id : Z) (cmd1 : Command)
    (n1 : Z) :
  getRequestId cmd next_id = (id, cmd1, n1) → id ≠ 0%Z →
  getRequestId cmd1 n1 = (id, cmd1, n1).
Proof.
  unfold getRequestId. intros Hg Hnz.
  destruct (requestId cmd) as [r|] eqn:Hr.
  - destruct (decide (r = 0%Z)) as [Hz|Hz]; simplify_eq; simpl.
    + by destruct (decide (_ = 0%Z)).
    + rewrite Hr. by destruct (decide (_ = 0%Z)).
  - simplify_eq. simpl. by destruct (decide (_ = 0%Z)).
Qed.

Lemma registerHandler_assigned (db_command : Command) (raw0 : bool)
    (conn : option Connection) (exhaust0 : exhaust_arg) (callback : option fn)
    (now next_id : Z) (b : Base) (id : Z) (cmd1 : Command) (n1 : Z) :
  getRequestId db_command next_id = (id, cmd1, n1) → id ≠ 0%Z →
  _registerHandler db_command raw0 conn exhaust0 callback now next_id b
  = match registerHandler_at id raw0 conn exhaust0 callback now b with
    | Returned b' => Returned (b', cmd1, n1)
    | Threw msg => Threw msg
    end.
Proof.
  intros Hg Hnz. unfold _registerHandler, registerHandler_at.
  rewrite Hg, (getRequestId_again _ _ _ _ _ Hg Hnz).
  by destruct exhaust0 as [e|g]; [destruct callback|].
Qed.

(** At the counter value 0 the two readings of the request id differ: the
    first assigns 0, which the second takes for no id and replaces by 1, so
    the listener is stored under 0 and the metadata under 1. *)
Lemma registerHandler_at_counter_zero :
  let b0 := new_Base {| obj_id := 0; obj_db := None |} in
  _registerHandler {| requestId := None; body := 1 |} false None
    (ExhaustFlag false) (Some 1) 100 0 b0
  = Returned
      (with_callBackStore b0
         {| _notReplied := {[ 1%Z := {| start := 100; raw := false;
                                         connection := None;
                                         exhaust := false |} ]};
            _events := {[ 0%Z := [OnceWrapper 1] ]} |},
       {| requestId := Some 1%Z; body := 1 |}, 2%Z).
Proof. vm_compute. done. Qed.

(** C2, at a registry that holds request 7: registering request 7 again
    returns normally, leaves two handlers stored under the id and replaces
    the stored metadata. *)
Lemma second_register_is_accepted :
  let b0 := new_Base {| obj_id := 0; obj_db := None |} in
  let cmd := {| requestId := Some 7%Z; body := 1 |} in
  let b1 := with_callBackStore b0
              {| _notReplied := {[ 7%Z := {| start := 100; raw := false;
                                              connection := None;
                                              exhaust := false |} ]};
                 _events := {[ 7%Z := [OnceWrapper 1] ]} |} in
  let b2 := with_callBackStore b0
              {| _notReplied := {[ 7%Z := {| start := 200; raw := true;
                                              connection := None;
                                              exhaust := false |} ]};
                 _events := {[ 7%Z := [OnceWrapper 1; OnceWrapper 2] ]} |} in
  _registerHandler cmd false None (ExhaustFlag false) (Some 1) 100 8 b0
    = Returned (b1, cmd, 8%Z)
  ∧ _registerHandler cmd true None (ExhaustFlag false) (Some 2) 200 8 b1
    = Returned (b2, cmd, 8%Z).
Proof. vm_compute. done. Qed.

(** C2, as the code has it: in every state, registering a handler for a
    request id, registered already or not, returns normally; the handler is
    stored after the handlers the id already has, the metadata of the id is
    replaced by that of this call, and no other id is touched. *)
Theorem register_appends_handler_and_replaces_info
    (db_command : Command) (id : Z) (raw0 : bool)
    (conn : option Connection) (ex : bool) (f : fn) (now next_id : Z)
    (b : Base) :
  requestId db_command = Some id → id ≠ 0%Z →
  ∃ b', _registerHandler db_command raw0 conn (ExhaustFlag ex) (Some f) now
          next_id b = Returned (b', db_command, next_id)
    ∧ listeners (_callBackStore b') id
      = listeners (_callBackStore b) id ++ [OnceWrapper f]
    ∧ _notReplied (_callBackStore b') !! id
      = Some {| start := now; raw := raw0; connection := conn;
                exhaust := ex |}
    ∧ ∀ k, k ≠ id →
        listeners (_callBackStore b') k = listeners (_callBackStore b) k
        ∧ _notReplied (_callBackStore b') !! k
          = _notReplied (_callBackStore b) !! k.
Proof.
  intros Hid Hnz.
  assert (getRequestId db_command next_id = (id, db_command, next_id)) as Hg.
  { unfold getRequestId. rewrite Hid. by destruct (decide (id = 0%Z)). }
  rewrite (registerHandler_assigned _ _ _ _ _ _ _ _ _ _ _ Hg Hnz). simpl.
  eexists. split; [reflexivity|]. simpl.
  split; [|split].
  - unfold listeners at 1. simpl. by rewrite lookup_insert_eq.
  - by rewrite lookup_insert_eq.
  - intros k Hk. split.
    + unfold listeners at 1. simpl. by rewrite lookup_insert_ne.
    + by rewrite lookup_insert_ne.
Qed.

Lemma register_appends_handler_and_replaces_info_witness :
  ∃ b', _registerHandler {| requestId := Some 7%Z; body := 1 |} true None
          (ExhaustFlag false) (Some 2) 200 8
          (with_callBackStore (new_Base {| obj_id := 0; obj_db := None |})
             {| _notReplied := {[ 7%Z := {| start := 100; raw := false;
                                             connection := None;
                                             exhaust := false |} ]};
                _events := {[ 7%Z := [OnceWrapper 1] ]} |})
        = Returned (b', {| requestId := Some 7%Z; body := 1 |}, 8%Z)
    ∧ listeners (_callBackStore b') 7 = [OnceWrapper 1; OnceWrapper 2].
Proof.
  destruct (register_appends_handler_and_replaces_info
              {| requestId := Some 7%Z; body := 1 |} 7 true None false 2 200 8
              (with_callBackStore (new_Base {| obj_id := 0; obj_db := None |})
                 {| _notReplied := {[ 7%Z := {| start := 100; raw := false;
                                                 connection := None;
                                                 exhaust := false |} ]};
                    _events := {[ 7%Z := [OnceWrapper 1] ]} |})
              eq_refl ltac:(discriminate)) as (b' & H1 & H2 & _).
  exists b'. split; [exact H1|exact H2].
Defined.

(** C3: over every sequence of register and complete calls on a new
    registry, a handler is called at most as often as it was registered, so
    a handler registered once is called at most once; completing an id
    without a handler changes nothing and makes no call; and completing an
    id that has a handler removes its metadata and its listeners. *)
Theorem handler_called_at_most_once :
  (∀ (cs : list registry_call) (o : emit_object) (f : fn),
     times_called f (registry_run cs (new_Base o)).2 ≤ times_registered f cs)
  ∧ (∀ (b : Base) (id : Z) (doc : option value) (err : option Error),
       listeners (_callBackStore b) id = [] →
       _callHandler id doc err b = (b, []))
  ∧ (∀ (b : Base) (id : Z) (doc : option value) (err : option Error),
       listeners (_callBackStore b) id ≠ [] →
       let b' := (_callHandler id doc err b).1 in
       _notReplied (_callBackStore b') !! id = None
       ∧ listeners (_callBackStore b') id = []
       ∧ _hasHandler id b' = false).
Proof.
  split; [|split].
  - intros cs o f.
    pose proof (registry_run_accounting f cs (new_Base o)) as H.
    simpl in H. rewrite stored_wrappers_empty in H. lia.
  - apply callHandler_unregistered.
  - intros b id doc err H.
    destruct (callHandler_removes b id doc err H) as [Hn He].
    simpl in *. split; [done|].
    unfold _hasHandler, listeners. rewrite He. done.
Qed.

Lemma handler_called_at_most_once_witness :
  let o := {| obj_id := 0; obj_db := None |} in
  let b1 := with_callBackStore (new_Base o)
              {| _notReplied := {[ 7%Z := {| start := 100; raw := false;
                                              connection := None;
                                              exhaust := false |} ]};
                 _events := {[ 7%Z := [OnceWrapper 1] ]} |} in
  times_called 1
    (registry_run [Register 7 false None false 1 100;
                   Complete 7 None None; Complete 7 None None]
       (new_Base o)).2 ≤ 1
  ∧ _callHandler 9 None None b1 = (b1, [])
  ∧ _notReplied (_callBackStore (_callHandler 7 None None b1).1) !! 7%Z = None.
Proof.
  intros o b1.
  destruct handler_called_at_most_once as (H1 & H2 & H3).
  split; [|split].
  - exact (H1 [Register 7 false None false 1 100;
               Complete 7 None None; Complete 7 None None] o 1).
  - apply H2. reflexivity.
  - apply (H3 b1 7%Z None None). vm_compute. discriminate.
Defined.

(** C7, at a registry that holds request 7 with its exhaust flag set:
    completing request 7 calls the handler and leaves the registry empty. *)
Lemma exhaust_entry_removed_by_complete :
  let b0 := new_Base {| obj_id := 0; obj_db := None |} in
  let b1 := with_callBackStore b0
              {| _notReplied := {[ 7%Z := {| start := 100; raw := false;
                                              connection := None;
                                              exhaust := true |} ]};
                 _events := {[ 7%Z := [OnceWrapper 1] ]} |} in
  registerHandler_at 7 false None (ExhaustFlag true) (Some 1) 100 b0
    = Returned b1
  ∧ _callHandler 7 (Some (VDocument 3)) None b1
    = (b0, [Call 1 None (Some (VDocument 3)) None])
  ∧ _hasHandler 7 b0 = false.
Proof. vm_compute. done. Qed.

(** C7, as the code has it: completing a registered request calls its
    handler and removes its metadata and listeners whatever its exhaust
    flag says; the handler resolves a later reply only once
    [_reRegisterHandler] is given what [_findHandler] found before the
    completion, which stores the same handler and the same metadata under
    the new id. *)
Theorem complete_removes_entry_whatever_exhaust
    (b : Base) (id newId : Z) (i : info) (f : fn) (rest : list listener)
    (doc : option value) (err : option Error) :
  _notReplied (_callBackStore b) !! id = Some i →
  listeners (_callBackStore b) id = OnceWrapper f :: rest →
  let object := _findHandler id b in
  let r := _callHandler id doc err b in
  r.2 = [Call f err doc (connection i)]
  ∧ _notReplied (_callBackStore r.1) !! id = None
  ∧ listeners (_callBackStore r.1) id = []
  ∧ ∃ b2, _reRegisterHandler newId object r.1 = Returned b2
      ∧ listeners (_callBackStore b2) newId
        = listeners (_callBackStore r.1) newId ++ [OnceWrapper f]
      ∧ _notReplied (_callBackStore b2) !! newId = Some i.
Proof.
  intros Hi Hl. unfold _findHandler, _callHandler. rewrite Hi, Hl. simpl.
  split; [done|]. split; [by rewrite lookup_delete_eq|].
  split; [unfold listeners; simpl; by rewrite lookup_delete_eq|].
  unfold _reRegisterHandler. simpl. eexists. split; [reflexivity|].
  simpl. split.
  - unfold listeners at 1. simpl. by rewrite lookup_insert_eq.
  - by rewrite lookup_insert_eq.
Qed.

Lemma complete_removes_entry_whatever_exhaust_witness :
  let b0 := new_Base {| obj_id := 0; obj_db := None |} in
  let b1 := with_callBackStore b0
              {| _notReplied := {[ 7%Z := {| start := 100; raw := false;
                                              connection := None;
                                              exhaust := true |} ]};
                 _events := {[ 7%Z := [OnceWrapper 1] ]} |} in
  (_callHandler 7 None None b1).2 = [Call 1 None None None]
  ∧ _notReplied (_callBackStore (_callHandler 7 None None b1).1) !! 7%Z = None.
Proof.
  intros b0 b1.
  destruct (complete_removes_entry_whatever_exhaust b1 7 8
              {| start := 100; raw := false; connection := None;
                 exhaust := true |} 1 [] None None eq_refl eq_refl)
    as (H1 & H2 & _).
  split; [exact H1|exact H2].
Defined.

Section flush_properties.
Variables (host : string) (port : Z) (err : option Error).

Lemma flush_calls_agree (cs1 cs2 : CallbackStore) (ks : list Z) :
  (∀ k, k ∈ ks → _notReplied cs1 !! k = _notReplied cs2 !! k
                 ∧ _events cs1 !! k = _events cs2 !! k) →
  flush_calls host port err cs1 ks = flush_calls host port err cs2 ks.
Proof.
  induction ks as [|k rest IH]; intros Hagree; [done|].
  unfold flush_calls in *. simpl.
  destruct (Hagree k) as [Hn He]; [by left|].
  unfold flush_target, completion_calls, listeners. rewrite Hn, He.
  f_equal. apply IH. intros k' Hk'. apply Hagree. by right.
Qed.

(** After the listeners of [k] were called, the two deletions leave the
    store with [k] removed from both tables. *)
Lemma store_emit_then_delete (k : Z) (cs : CallbackStore) :
  removeAllListeners k (delete_notReplied k (store_emit k err cs).1)
  = {| _notReplied := delete k (_notReplied cs);
       _events := delete k (_events cs) |}
  ∧ (store_emit k err cs).2 = completion_calls err cs k.
Proof.
  unfold store_emit, removeAllListeners, delete_notReplied. simpl.
  split; [|done]. f_equal.
  destruct (filter _ _); [by rewrite delete_delete_eq|by rewrite delete_insert_eq].
Qed.

Lemma same_server_spec (c : Connection) :
  same_server host port c
  = bool_decide (socketOptions_host c = host ∧ socketOptions_port c = port).
Proof.
  unfold same_server. repeat case_bool_decide; simpl; try done; tauto.
Qed.

Lemma serverSpecific_loop_spec (ks : list Z) (cs : CallbackStore) :
  NoDup ks → (∀ k, k ∈ ks → is_Some (_notReplied cs !! k)) →
  ∃ cs', serverSpecific_loop ks host port err cs
         = (Returned tt, cs', flush_calls host port err cs ks)
    ∧ ∀ k,
        (_notReplied cs' !! k
         = if bool_decide (k ∈ ks) && flush_target host port cs k
           then None else _notReplied cs !! k)
        ∧ (_events cs' !! k
           = if bool_decide (k ∈ ks) && flush_target host port cs k
             then None else _events cs !! k).
Proof.
  revert cs. induction ks as [|k0 rest IH]; intros cs Hnd Hin.
  - exists cs. split; [done|]. intros k.
    rewrite bool_decide_eq_false_2 by apply not_elem_of_nil. done.
  - apply NoDup_cons in Hnd as [Hk0 Hnd].
    destruct (Hin k0) as [i Hi]; [by left|].
    assert (∀ cs0, (∀ k, k ≠ k0 →
                      _notReplied cs0 !! k = _notReplied cs !! k
                      ∧ _events cs0 !! k = _events cs !! k) →
              ∀ k, k ≠ k0 →
                flush_target host port cs0 k = flush_target host port cs k)
      as Htarget.
    { intros cs0 H k Hk. unfold flush_target. by rewrite (proj1 (H k Hk)). }
    cbn [serverSpecific_loop]. rewrite Hi.
    destruct (flush_target host port cs k0) eqn:Ht.
    + pose proof Ht as Ht0. unfold flush_target in Ht. rewrite Hi in Ht.
      destruct (connection i) as [c|]; [|done]. rewrite same_server_spec, Ht.
      destruct (store_emit_then_delete k0 cs) as [Hcs2 Hcalls].
      destruct (store_emit k0 err cs) as [cs1 calls1]. simpl in Hcs2, Hcalls.
      rewrite Hcs2.
      set (cs2 := {| _notReplied := delete k0 (_notReplied cs);
                     _events := delete k0 (_events cs) |}).
      assert (∀ k, k ≠ k0 →
                _notReplied cs2 !! k = _notReplied cs !! k
                ∧ _events cs2 !! k = _events cs !! k) as Hsame.
      { intros k Hk. simpl. by rewrite !lookup_delete_ne. }
      destruct (IH cs2 Hnd) as (cs' & Hloop & Hlook).
      { intros k Hk. assert (k ≠ k0) as Hne by (intros ->; done).
        rewrite (proj1 (Hsame k Hne)). apply Hin. by right. }
      rewrite Hloop. exists cs'. split.
      * f_equal. unfold flush_calls at 2. simpl. rewrite Ht0, Hcalls.
        f_equal. apply flush_calls_agree. intros k Hk. apply Hsame.
        intros ->. done.
      * intros k. destruct (Hlook k) as [Hn He].
        destruct (decide (k = k0)) as [->|Hne].
        -- rewrite (bool_decide_eq_false_2 (k0 ∈ rest)) in Hn, He by done.
           rewrite (bool_decide_eq_true_2 (k0 ∈ k0 :: rest)) by (by left).
           rewrite Ht0. subst cs2. simpl in Hn, He.
           rewrite lookup_delete_eq in Hn. rewrite lookup_delete_eq in He.
           done.
        -- rewrite (Htarget cs2 Hsame k Hne) in Hn, He.
           rewrite (proj1 (Hsame k Hne)) in Hn.
           rewrite (proj2 (Hsame k Hne)) in He.
           assert (bool_decide (k ∈ k0 :: rest) = bool_decide (k ∈ rest)) as ->.
           { apply bool_decide_ext. rewrite elem_of_cons.
             split; [intros [?|?]; [by destruct Hne|done]|by right]. }
           done.
    + assert (serverSpecific_loop (k0 :: rest) host port err cs
              = serverSpecific_loop rest host port err cs) as Hskip.
      { cbn [serverSpecific_loop]. rewrite Hi.
        unfold flush_target in Ht. rewrite Hi in Ht.
        destruct (connection i); [by rewrite same_server_spec, Ht|done]. }
      cbn [serverSpecific_loop] in Hskip. rewrite Hi in Hskip. rewrite Hskip.
      destruct (IH cs Hnd) as (cs' & Hloop & Hlook).
      { intros k Hk. apply Hin. by right. }
      rewrite Hloop. exists cs'. split.
      * f_equal. unfold flush_calls at 2. simpl. by rewrite Ht.
      * intros k. destruct (Hlook k) as [Hn He].
        destruct (decide (k = k0)) as [->|Hne].
        -- rewrite (bool_decide_eq_false_2 (k0 ∈ rest)) in Hn, He by done.
           rewrite Ht, andb_false_r. done.
        -- assert (bool_decide (k ∈ k0 :: rest) = bool_decide (k ∈ rest)) as ->.
           { apply bool_decide_ext. rewrite elem_of_cons.
             split; [intros [?|?]; [by destruct Hne|done]|by right]. }
           done.
Qed.

(** The ids of the store in increasing order are an array [Object.keys]
    can return: it is the one it returns when the ids are array indices. *)
Lemma sorted_ids_listed (cs : CallbackStore) :
  notRepliedToIds cs (merge_sort Z.le (map fst (map_to_list (_notReplied cs)))).
Proof.
  split.
  - rewrite merge_sort_Permutation. apply NoDup_fst_map_to_list.
  - intros k. rewrite merge_sort_Permutation.
    rewrite list_elem_of_fmap. split.
    + intros ([k' i] & -> & Hin). apply elem_of_map_to_list in Hin.
      by exists i.
    + intros [i Hi]. exists (k, i). split; [done|].
      by apply elem_of_map_to_list.
Qed.

End flush_properties.

(** C8: in every registry state, with [keys] the ids [Object.keys] lists,
    the flush aimed at [host:port] returns normally; its calls are the
    listeners of the entries whose stored connection has the host [host]
    and the port [port], each called with the error, entry after entry in
    the order of [keys]; those entries lose their metadata and their
    listeners; and every other id (its connection has another host or
    another port, it stores no connection, or it has no entry) keeps its
    metadata and its listeners as they were. *)
Theorem serverSpecific_flush_completes_matching_entries
    (keys : list Z) (host : string) (port : Z) (err : option Error)
    (b : Base) :
  let cs := _callBackStore b in
  notRepliedToIds cs keys →
  let r := __executeAllServerSpecificErrorCallbacks keys host port err b in
  let cs' := _callBackStore r.1.2 in
  r.1.1 = Returned tt
  ∧ r.2 = flush_calls host port err cs keys
  ∧ (∀ k i c, _notReplied cs !! k = Some i → connection i = Some c →
        socketOptions_host c = host → socketOptions_port c = port →
        _notReplied cs' !! k = None ∧ listeners cs' k = [])
  ∧ (∀ k, (∀ i c, _notReplied cs !! k = Some i → connection i = Some c →
             socketOptions_host c ≠ host ∨ socketOptions_port c ≠ port) →
        _notReplied cs' !! k = _notReplied cs !! k
        ∧ listeners cs' k = listeners cs k)
  ∧ _dbStore r.1.2 = _dbStore b ∧ _commandsStore r.1.2 = _commandsStore b.
Proof.
  intros cs [Hnd Hin] r cs'. subst r cs'.
  unfold __executeAllServerSpecificErrorCallbacks. fold cs.
  destruct (serverSpecific_loop_spec host port err keys cs Hnd)
    as (cs' & Hloop & Hlook).
  { intros k Hk. by apply Hin. }
  rewrite Hloop. simpl.
  split; [done|]. split; [done|].
  split; [|split; [|done]].
  - intros k i c Hi Hc Hhost Hport. destruct (Hlook k) as [Hn He].
    assert (flush_target host port cs k = true) as Ht.
    { unfold flush_target. rewrite Hi, Hc. by apply bool_decide_eq_true. }
    rewrite Ht in Hn, He.
    assert (k ∈ keys) as Hk by (apply Hin; by eexists).
    rewrite bool_decide_eq_true_2 in Hn, He by done. simpl in Hn, He.
    split; [done|]. unfold listeners. by rewrite He.
  - intros k Hother. destruct (Hlook k) as [Hn He].
    assert (flush_target host port cs k = false) as Ht.
    { unfold flush_target.
      destruct (_notReplied cs !! k) as [i|] eqn:Hi; [|done].
      destruct (connection i) as [c|] eqn:Hc; [|done].
      apply bool_decide_eq_false. intros [Hhost Hport].
      by destruct (Hother i c eq_refl Hc). }
    rewrite Ht, andb_false_r in Hn, He.
    split; [done|]. unfold listeners. by rewrite He.
Qed.

Lemma serverSpecific_flush_completes_matching_entries_witness :
  let down := {| socketOptions_host := "rets.example.org";
                 socketOptions_port := 6103;
                 isConnected := true; isCompatible := true |} in
  let up := {| socketOptions_host := "rets.example.org";
               socketOptions_port := 6104;
               isConnected := true; isCompatible := true |} in
  let other := {| socketOptions_host := "rets.example.net";
                  socketOptions_port := 6103;
                  isConnected := true; isCompatible := true |} in
  let entry c := {| start := 100; raw := false; connection := c;
                    exhaust := false |} in
  let b := with_callBackStore (new_Base {| obj_id := 0; obj_db := None |})
             {| _notReplied := {[ 3%Z := entry (Some down);
                                  4%Z := entry (Some up);
                                  5%Z := entry None;
                                  6%Z := entry (Some down);
                                  7%Z := entry (Some other) ]};
                _events := {[ 3%Z := [OnceWrapper 30];
                              4%Z := [OnceWrapper 40];
                              5%Z := [OnceWrapper 50];
                              6%Z := [OnceWrapper 60];
                              7%Z := [OnceWrapper 70] ]} |} in
  let r := __executeAllServerSpecificErrorCallbacks [3; 4; 5; 6; 7]%Z
             "rets.example.org" 6103 (Some (mkError "connection closed")) b in
  r.2 = [Call 30 (Some (mkError "connection closed")) None None;
         Call 60 (Some (mkError "connection closed")) None None]
  ∧ _notReplied (_callBackStore r.1.2) !! 3%Z = None
  ∧ _notReplied (_callBackStore r.1.2) !! 4%Z = Some (entry (Some up))
  ∧ listeners (_callBackStore r.1.2) 5 = [OnceWrapper 50]
  ∧ _notReplied (_callBackStore r.1.2) !! 7%Z = Some (entry (Some other))
  ∧ listeners (_callBackStore r.1.2) 7 = [OnceWrapper 70].
Proof.
  intros down up other entry b r.
  destruct (serverSpecific_flush_completes_matching_entries
              [3; 4; 5; 6; 7]%Z "rets.example.org" 6103
              (Some (mkError "connection closed")) b
              (sorted_ids_listed (_callBackStore b)))
    as (_ & Hcalls & Hgone & Hkept & _).
  split; [exact Hcalls|].
  split; [exact (proj1 (Hgone 3%Z (entry (Some down)) down eq_refl eq_refl
                          eq_refl eq_refl))|].
  split.
  { refine (proj1 (Hkept 4%Z _)). intros i c Hi Hc.
    vm_compute in Hi. injection Hi as <-. injection Hc as <-. by right. }
  split.
  { refine (proj2 (Hkept 5%Z _)). intros i c Hi Hc.
    vm_compute in Hi. injection Hi as <-. discriminate Hc. }
  split.
  { refine (proj1 (Hkept 7%Z _)). intros i c Hi Hc.
    vm_compute in Hi. injection Hi as <-. injection Hc as <-. by left. }
  refine (proj2 (Hkept 7%Z _)). intros i c Hi Hc.
  vm_compute in Hi. injection Hi as <-. injection Hc as <-. by left.
Defined.

(** Re-registering with what [_findHandler] returns for an id that has a
    listener and no info leaves the new id without info; [Object.keys]
    then lists the new id, and a flush that reaches it raises on reading
    [info.connection], before it looks at the ids listed after it. *)
Lemma reRegister_without_info_then_flush_raises :
  let down := {| socketOptions_host := "rets.example.org";
                 socketOptions_port := 6103;
                 isConnected := true; isCompatible := true |} in
  let entry := {| start := 100; raw := false; connection := Some down;
                  exhaust := false |} in
  let b0 := with_callBackStore (new_Base {| obj_id := 0; obj_db := None |})
              {| _notReplied := {[ 8%Z := entry ]};
                 _events := {[ 7%Z := [OnceWrapper 70];
                               8%Z := [OnceWrapper 80] ]} |} in
  let b1 := with_callBackStore b0
              {| _notReplied := {[ 8%Z := entry ]};
                 _events := {[ 5%Z := [OnceWrapper 70];
                               7%Z := [OnceWrapper 70];
                               8%Z := [OnceWrapper 80] ]} |} in
  _findHandler 7 b0
  = {| found_info := None; found_callback := Some (OnceWrapper 70) |}
  ∧ _reRegisterHandler 5 (_findHandler 7 b0) b0 = Returned b1
  ∧ __executeAllServerSpecificErrorCallbacks [5; 8]%Z "rets.example.org" 6103
      None b1
    = (Threw "Cannot read property 'connection' of undefined", b1, []).
Proof. vm_compute. done. Qed.

(** * Properties of the store of database handles *)

(** With the rethrow flag set, [DbStore.emit] returns from its first test:
    it hands the message to the process and delivers to no handle, whatever
    the handles listen to. *)
Lemma emit_with_rethrow (event : string) (message : option Error)
    (object : option emit_object) (reset : bool) (filterDb : option Db)
    (_dbs : list Db) :
  DbStore.emit event message object reset filterDb true _dbs
  = [NextTickThrow message].
Proof. done. Qed.

Lemma passes_filter_spec (filterDb : option Db) (d : Db) :
  DbStore.passes_filter filterDb d = true ↔ ¬ excluded_by filterDb d.
Proof.
  unfold DbStore.passes_filter, excluded_by. destruct filterDb as [f|].
  - rewrite orb_true_iff, !negb_true_iff, !bool_decide_eq_false. split.
    + intros [H|H] (f' & [= <-] & H1 & H2); done.
    + intros H.
      destruct (decide (databaseName f = databaseName d)) as [H1|H1];
        [|by left].
      right. intros H2. apply H. by exists f.
  - split; [by intros _ (f' & ? & _)|done].
Qed.

Lemma delivery_test (event : string) (filterDb : option Db) (d : Db) :
  bool_decide (0 < length (db_listeners d event))
  && DbStore.passes_filter filterDb d
  = bool_decide (0 < length (db_listeners d event) ∧ ¬ excluded_by filterDb d).
Proof.
  rewrite bool_decide_and. f_equal.
  destruct (DbStore.passes_filter filterDb d) eqn:Hp; symmetry.
  - apply bool_decide_eq_true_2. by apply passes_filter_spec.
  - apply bool_decide_eq_false_2. rewrite <- passes_filter_spec.
    by rewrite Hp.
Qed.

Lemma emit_loop_delivers (event : string) (message : option Error)
    (object : option emit_object) (filterDb : option Db) (_dbs : list Db)
    (i : nat) (emitted : bool) :
  (DbStore.emit_loop event message object filterDb i _dbs emitted).1
  = mjoin (imap (fun j d => delivery event message object filterDb (i + j) d)
             _dbs).
Proof.
  revert i emitted. induction _dbs as [|d rest IH]; intros i emitted; [done|].
  rewrite imap_cons. simpl. unfold delivery at 1.
  rewrite Nat.add_0_r.
  assert (imap ((fun j d0 => delivery event message object filterDb (i + j) d0)
                ∘ S) rest
          = imap (fun j d0 => delivery event message object filterDb (S i + j) d0)
              rest) as ->.
  { apply imap_ext. intros j d0 _. simpl. f_equal. lia. }
  rewrite <- delivery_test.
  destruct (bool_decide (0 < length (db_listeners d event))
            && DbStore.passes_filter filterDb d).
  - specialize (IH (S i) true).
    destruct (DbStore.emit_loop event message object filterDb (S i) rest true).
    simpl in *. by rewrite IH.
  - apply IH.
Qed.

(** Without the rethrow flag, [DbStore.emit] delivers the event to every
    handle of the store that listens to it and is not excluded, in store
    order, and escalates nothing. *)
Lemma emit_without_rethrow (event : string) (message : option Error)
    (object : option emit_object) (reset : bool) (filterDb : option Db)
    (_dbs : list Db) :
  DbStore.emit event message object reset filterDb false _dbs
  = mjoin (imap (delivery event message object filterDb) _dbs).
Proof.
  unfold DbStore.emit. simpl.
  pose proof (emit_loop_delivers event message object filterDb _dbs 0 false)
    as H.
  destruct (DbStore.emit_loop event message object filterDb 0 _dbs false)
    as [calls emitted].
  simpl in H. rewrite H.
  assert (match message, object with
          | Some _, Some o =>
              match obj_db o with
              | Some db =>
                  if bool_decide (event = "error") && negb emitted && false
                  then [NextTickDbEmit db event message]
                  else []
              | None => []
              end
          | _, _ => []
          end = []) as ->.
  { destruct message, object as [o|]; try done.
    destruct (obj_db o); [|done]. by rewrite andb_false_r. }
  by rewrite app_nil_r.
Qed.

(** C5, at a store whose one handle listens to [error]: broadcast with the
    rethrow flag set, the error is not delivered to the handle and goes to
    the process as an uncaught exception; without the flag the handle
    receives it. *)
Theorem emit_rethrow_bypasses_listening_handle :
  let h := {| db_ref := 1; databaseName := None; tag := 10;
              openCalled := Some true;
              db_events := {[ "error" := [OnListener 5] ]};
              db_options := no_options; db_raw := false;
              bufferMaxEntries := (-1); _applicationClosed := false |} in
  let e := mkError "connection closed" in
  let b := with_dbStore (new_Base {| obj_id := 0; obj_db := None |}) [h] in
  db_listeners h "error" = [OnListener 5]
  ∧ DbStore.emit "error" (Some e) None true None true [h]
    = [NextTickThrow (Some e)]
  ∧ (_emitAcrossAllDbInstances None "error" (Some e) None true true b).2
    = [NextTickThrow (Some e)]
  ∧ DbStore.emit "error" (Some e) None true None false [h]
    = [DbEmit 0 "error" (Some e) (PDb 0)].
Proof. vm_compute. done. Qed.

Lemma fetch_Some (name : option string) (_dbs : list Db) (d : Db) :
  DbStore.fetch name _dbs = Some d → d ∈ _dbs ∧ databaseName d = name.
Proof.
  induction _dbs as [|d0 rest IH]; simpl; [done|].
  destruct (decide (name = databaseName d0)) as [->|Hne].
  - intros [= ->]. split; [by left|done].
  - intros H. destruct (IH H) as [Hin Hname]. split; [by right|done].
Qed.

Lemma fetch_None (name : option string) (_dbs : list Db) :
  DbStore.fetch name _dbs = None ↔ ∀ d, d ∈ _dbs → databaseName d ≠ name.
Proof.
  induction _dbs as [|d0 rest IH]; simpl.
  - split; [|done]. intros _ d Hd. by apply not_elem_of_nil in Hd.
  - destruct (decide (name = databaseName d0)) as [->|Hne].
    + split; [done|]. intros H. destruct (H d0); [by left|done].
    + rewrite IH. split.
      * intros H d [->|Hd]%elem_of_cons; [done|by apply H].
      * intros H d Hd. apply H. by right.
Qed.

(** [Db.prototype.db] returns no handle but one of the store: the
    constructor call it falls back on raises. *)
Lemma db_returns_only_stored_handles (self : Db) (dbName : option string)
    (ref : nat) (now : Z) (b : Base) (d : Db) (b' : Base) :
  Db_db self dbName ref now b = Returned (d, b') →
  d ∈ _dbStore b ∧ b' = b.
Proof.
  unfold Db_db.
  destruct (DbStore.fetch dbName (_dbStore b)) as [d0|] eqn:Hf.
  - intros [= -> ->]. split; [by apply fetch_Some in Hf as [? _]|done].
  - by destruct dbName.
Qed.

(** C9: when the store holds a handle of the requested name,
    [Db.prototype.db] returns the first handle of that name from the store
    and leaves the store as it is; it goes on to the constructor only when
    the store holds no handle of that name. *)
Theorem db_returns_cached_handle (self : Db) (dbName : option string)
    (ref : nat) (now : Z) (b : Base) :
  (∀ d0, d0 ∈ _dbStore b → databaseName d0 = dbName →
     ∃ d, Db_db self dbName ref now b = Returned (d, b)
          ∧ DbStore.fetch dbName (_dbStore b) = Some d
          ∧ d ∈ _dbStore b ∧ databaseName d = dbName)
  ∧ (Db_db self dbName ref now b
       = Db_new (match dbName with
                 | Some s => AsString s
                 | None => AsUndefined
                 end) OptionsServer ref now b
     ↔ ∀ d0, d0 ∈ _dbStore b → databaseName d0 ≠ dbName).
Proof.
  unfold Db_db. split.
  - intros d0 Hin Hname.
    destruct (DbStore.fetch dbName (_dbStore b)) as [d|] eqn:Hf.
    + exists d. destruct (fetch_Some _ _ _ Hf). done.
    + rewrite fetch_None in Hf. by destruct (Hf d0 Hin).
  - rewrite <- fetch_None.
    destruct (DbStore.fetch dbName (_dbStore b)) as [d|] eqn:Hf; [|done].
    split; [|done]. by destruct dbName.
Qed.

Lemma db_returns_cached_handle_witness :
  let named n r t :=
    {| db_ref := r; databaseName := Some n; tag := t;
       openCalled := Some true; db_events := ∅; db_options := no_options;
       db_raw := false; bufferMaxEntries := (-1);
       _applicationClosed := false |} in
  let b := with_dbStore (new_Base {| obj_id := 0; obj_db := None |})
             [named "listings" 1 10%Z; named "agents" 2 20%Z] in
  ∃ d, Db_db (named "listings" 1 10%Z) (Some "agents") 3 30 b
       = Returned (d, b)
       ∧ DbStore.fetch (Some "agents") (_dbStore b) = Some d.
Proof.
  intros named b.
  destruct (proj1 (db_returns_cached_handle (named "listings" 1 10%Z)
                     (Some "agents") 3 30 b)
              (named "agents" 2 20%Z)) as (d & H1 & H2 & _).
  - right. left.
  - reflexivity.
  - exists d. split; [exact H1|exact H2].
Defined.

(** * Properties of the dispatch functions *)

(** C10: whatever the user name and password, when the options are left
    out or name no mechanism (none, or the empty string) or one of BASIC,
    OAUTH and DIGEST, [authenticate] makes one call and no other: the
    callback, with [(null, true)]. When the options name any other
    mechanism, it makes one call and no other: the callback, with the error
    that only BASIC, OAUTH or DIGEST is supported, and with no result. So
    when it calls the callback with an error, the options name a mechanism
    that is none of the three. *)
Theorem authenticate_calls_back_without_dispatch
    (username password : string) (f : fn) :
  (∀ callback, authenticate username password (AuthFunction f) callback
               = Returned [Call f None (Some (VBool true)) None])
  ∧ (∀ authMechanism,
       authMechanism = None ∨ authMechanism = Some EmptyString
       ∨ authMechanism = Some "BASIC"
       ∨ authMechanism = Some "OAUTH" ∨ authMechanism = Some "DIGEST" →
       authenticate username password (AuthObject authMechanism) (Some f)
       = Returned [Call f None (Some (VBool true)) None])
  ∧ (∀ m, m ≠ EmptyString → m ≠ "BASIC" → m ≠ "OAUTH" → m ≠ "DIGEST" →
       authenticate username password (AuthObject (Some m)) (Some f)
       = Returned
           [Call f
              (Some (mkError
                 "only BASIC, OAUTH or DIGEST is supported by authMechanism"))
              None None])
  ∧ (∀ options callback g e doc conn calls,
       authenticate username password options callback = Returned calls →
       Call g (Some e) doc conn ∈ calls →
       ∃ m, options = AuthObject (Some m)
            ∧ m ≠ "BASIC" ∧ m ≠ "OAUTH" ∧ m ≠ "DIGEST").
Proof.
  split; [done|]. split; [|split].
  - intros m [-> | [-> | [-> | [-> | ->]]]]; done.
  - intros m Hne Hb Ho Hd. simpl. unfold authenticate_with.
    destruct m as [|a m]; [done|].
    rewrite !bool_decide_eq_false_2 by done. done.
  - intros options callback g e doc conn calls Hr Hin.
    destruct options as [f0|m|]; simpl in Hr; [| |done].
    + injection Hr as <-. apply list_elem_of_singleton in Hin. done.
    + unfold authenticate_with, call_callback in Hr.
      destruct m as [[|a m]|].
      * destruct callback; simplify_eq.
        apply list_elem_of_singleton in Hin. done.
      * repeat case_bool_decide; simpl in Hr;
          try (destruct callback; simplify_eq;
               apply list_elem_of_singleton in Hin; done).
        by exists (String a m).
      * destruct callback; simplify_eq.
        apply list_elem_of_singleton in Hin. done.
Qed.

Lemma authenticate_calls_back_without_dispatch_witness :
  authenticate "agent" "secret" (AuthObject (Some "OAUTH")) (Some 4)
  = Returned [Call 4 None (Some (VBool true)) None]
  ∧ authenticate "agent" "secret" (AuthObject (Some "NTLM")) (Some 4)
    = Returned
        [Call 4
           (Some (mkError
              "only BASIC, OAUTH or DIGEST is supported by authMechanism"))
           None None]
  ∧ ∃ m, AuthObject (Some "NTLM") = AuthObject (Some m) ∧ m ≠ "BASIC".
Proof.
  destruct (authenticate_calls_back_without_dispatch "agent" "secret" 4)
    as (_ & H2 & H3 & H4).
  split; [|split].
  - apply H2. right. right. right. left. reflexivity.
  - apply H3; discriminate.
  - destruct (H4 (AuthObject (Some "NTLM")) (Some 4) 4
                (mkError "only BASIC, OAUTH or DIGEST is supported by authMechanism")
                None None _ eq_refl) as (m & Hm & H1 & _).
    + left.
    + exists m. split; [exact Hm|exact H1].
Defined.

Lemma wants_getLastError_spec {rt : JsRuntime} (errorOptions : WriteConcern) :
  wants_getLastError errorOptions = true ↔ acknowledged errorOptions.
Proof.
  unfold wants_getLastError, acknowledged.
  rewrite !orb_true_iff. split.
  - intros [[Hw|Hw]|Hj].
    + destruct (wc_w errorOptions) as [[n|s]|]; try done.
      * left. exists n. split; [done|]. by apply bool_decide_eq_true in Hw.
      * right. left. by exists s.
    + destruct (wc_w errorOptions) as [[n|s]|]; try done.
      apply bool_decide_eq_true in Hw. subst. by right; right; left.
    + destruct (wc_j errorOptions) as [[|]|]; try done. by right; right; right.
  - intros [(n & Hw & Hpos)|[(s & Hw & Hpos)|[Hw|Hj]]].
    + rewrite Hw. left. left. by apply bool_decide_eq_true.
    + rewrite Hw. by left; left.
    + rewrite Hw. left. right. by apply bool_decide_eq_true.
    + rewrite Hj. by right.
Qed.

(** C4: a write dispatched with a callback on a usable connection, while
    the request id counter is not 0, stores a registry entry exactly when
    its resolved write concern asks for an acknowledgement ([w] above 0 as
    the runtime compares it, [w] equal to ['majority'], or [j] set); the
    entry is the only one added, it is stored under the request id assigned
    to the synthesized getLastError command, which is not the id of the
    write command, and it holds the caller's callback. *)
Theorem write_registers_under_getLastError_id {rt : JsRuntime}
    (self : Db) (db_command : Command) (options : Options) (f : fn)
    (checkoutWriter : checkout) (c : Connection) (now next_id : Z)
    (b : Base) :
  match opt_connection options with
  | CNull => checkoutWriter
  | specifiedConnection => specifiedConnection
  end = CConn c →
  isCompatible c = true →
  next_id ≠ 0%Z →
  ids_below next_id b →
  (∀ r, requestId db_command = Some r → (r < next_id)%Z) →
  let errorOptions := _getWriteConcern self options in
  let getLastError := {| requestId := Some next_id;
                         body := getLastError_body |} in
  ∃ b' next_id' written,
    __executeInsertCommand self db_command options (Some f) checkoutWriter
      now next_id b
    = Returned (b', next_id', [ConnectionWrite c written])
    ∧ (is_Some (_notReplied (_callBackStore b') !! next_id)
       ↔ acknowledged errorOptions)
    ∧ (acknowledged errorOptions →
         written = [db_command; getLastError]
         ∧ _notReplied (_callBackStore b') !! next_id
           = Some {| start := now;
                     raw := default (db_raw self) (opt_raw options);
                     connection := Some c; exhaust := false |}
         ∧ listeners (_callBackStore b') next_id = [OnceWrapper f]
         ∧ size (_notReplied (_callBackStore b'))
           = S (size (_notReplied (_callBackStore b))))
    ∧ (¬ acknowledged errorOptions → written = [db_command] ∧ b' = b)
    ∧ (∀ k, k ≠ next_id →
         _notReplied (_callBackStore b') !! k
         = _notReplied (_callBackStore b) !! k
         ∧ listeners (_callBackStore b') k = listeners (_callBackStore b) k)
    ∧ requestId db_command ≠ Some next_id.
Proof.
  intros Hconn Hcompat Hnz Hbelow Hcmd errorOptions getLastError.
  assert (requestId db_command ≠ Some next_id) as Hfresh.
  { intros H. specialize (Hcmd _ H). lia. }
  destruct (Hbelow next_id) as [Hn He]; [lia|].
  unfold __executeInsertCommand. rewrite Hconn, Hcompat. simpl.
  fold errorOptions.
  pose proof (wants_getLastError_spec errorOptions) as Hspec.
  destruct (wants_getLastError errorOptions).
  - assert (acknowledged errorOptions) as Hack by (by apply Hspec).
    rewrite (registerHandler_assigned (createGetLastErrorCommand self) _ _ _ _
               _ next_id _ next_id getLastError (next_id + 1)%Z eq_refl Hnz).
    simpl.
    do 3 eexists. split; [reflexivity|]. simpl.
    rewrite lookup_insert_eq.
    split; [split; [done|by eexists]|].
    split.
    { intros _. split; [done|]. split; [done|]. split.
      - unfold listeners. simpl. rewrite lookup_insert_eq. simpl.
        by rewrite He.
      - by rewrite map_size_insert_None. }
    split; [done|]. split; [|done].
    intros k Hk. unfold listeners. simpl.
    by rewrite !lookup_insert_ne.
  - assert (¬ acknowledged errorOptions) as Hnack.
    { intros H. apply Hspec in H. done. }
    do 3 eexists. split; [reflexivity|].
    split; [rewrite Hn; split; [by intros [? ?]|done]|].
    split; [done|]. split; [done|]. split; [done|done].
Qed.

Lemma write_registers_under_getLastError_id_witness :
  let c := {| socketOptions_host := "rets.example.org";
              socketOptions_port := 6103;
              isConnected := true; isCompatible := true |} in
  let self := {| db_ref := 1; databaseName := None; tag := 10;
                 openCalled := Some true; db_events := ∅;
                 db_options := no_options; db_raw := false;
                 bufferMaxEntries := (-1); _applicationClosed := false |} in
  let w_two := {| opt_raw := None; opt_connection := CNull;
                  opt_w := Some (WStr "2"); opt_j := None;
                  opt_wtimeout := None; opt_override_used_flag := None;
                  opt_bufferMaxEntries := None |} in
  let b := new_Base {| obj_id := 0; obj_db := None |} in
  (∃ b' next_id' written,
     __executeInsertCommand (rt := digits_runtime) self
       {| requestId := Some 4%Z; body := 9 |}
       no_options (Some 1) (CConn c) 100 5 b
     = Returned (b', next_id', [ConnectionWrite c written])
     ∧ is_Some (_notReplied (_callBackStore b') !! 5%Z))
  ∧ (∃ b' next_id' written,
       __executeInsertCommand (rt := digits_runtime) self
         {| requestId := Some 4%Z; body := 9 |}
         w_two (Some 1) (CConn c) 100 5 b
       = Returned (b', next_id', [ConnectionWrite c written])
       ∧ is_Some (_notReplied (_callBackStore b') !! 5%Z)).
Proof.
  intros c self w_two b. split.
  - destruct (write_registers_under_getLastError_id (rt := digits_runtime)
                self {| requestId := Some 4%Z; body := 9 |} no_options 1
                (CConn c) c 100 5 b eq_refl eq_refl)
      as (b' & n' & w & H1 & H2 & _).
    + discriminate.
    + intros k Hk. split; apply lookup_empty.
    + intros r [= <-]. lia.
    + exists b', n', w. split; [exact H1|]. apply H2.
      left. exists 1%Z. split; [reflexivity|lia].
  - destruct (write_registers_under_getLastError_id (rt := digits_runtime)
                self {| requestId := Some 4%Z; body := 9 |} w_two 1
                (CConn c) c 100 5 b eq_refl eq_refl)
      as (b' & n' & w & H1 & H2 & _).
    + discriminate.
    + intros k Hk. split; apply lookup_empty.
    + intros r [= <-]. lia.
    + exists b', n', w. split; [exact H1|]. apply H2.
      right. left. exists "2". split; reflexivity.
Defined.

(** * Further properties of the store of non-executed operations *)

Section buffer_more.
Import NonExecutedOperationStore.

Lemma failure_calls_app (error : Error) (l1 l2 : list command) :
  failure_calls error (l1 ++ l2)
  = failure_calls error l1 ++ failure_calls error l2.
Proof. unfold failure_calls. apply omap_app. Qed.

Lemma failure_calls_times (f : fn) (error : Error) (cmds : list command) :
  times_called f (failure_calls error cmds)
  = length (List.filter (fun cmd => bool_decide (op_callback cmd = Some f))
              cmds).
Proof.
  induction cmds as [|cmd rest IH]; [done|].
  unfold failure_calls, times_called in *. simpl in *.
  destruct (op_callback cmd) as [g|] eqn:Hg; simpl;
    repeat case_bool_decide; simplify_eq; simpl;
    first [exact IH | f_equal; exact IH].
Qed.

End buffer_more.

(** X1: once more operations are buffered than a set limit allows,
    [validateBufferLimit] calls the callback of every buffered operation
    with the limit error, reads first, then reads routed to the writer, then
    writes, each in queue order; a function is called once for each
    operation it is the callback of, an operation without callback is
    dropped without a call, and the three queues are left empty. *)
Theorem validateBufferLimit_purges_every_queue
    (n : Z) (s : NonExecutedOperationStore.commands) (f : fn) :
  n ≠ (-1)%Z → (n < Z.of_nat (NonExecutedOperationStore.count s))%Z →
  let all := NonExecutedOperationStore.q_read s
             ++ NonExecutedOperationStore.q_write_reads s
             ++ NonExecutedOperationStore.q_write s in
  let r := NonExecutedOperationStore.validateBufferLimit (Some n) s in
  r = (false, NonExecutedOperationStore.new_store,
       NonExecutedOperationStore.failure_calls
         (NonExecutedOperationStore.limit_error n) all)
  ∧ NonExecutedOperationStore.count r.1.2 = 0
  ∧ times_called f r.2
    = length (List.filter
                (fun cmd => bool_decide
                              (NonExecutedOperationStore.op_callback cmd
                               = Some f)) all).
Proof.
  intros Hn Hlt all r. subst r.
  rewrite (validateBufferLimit_exceeded n s Hn Hlt).
  rewrite <- !failure_calls_app. fold all. simpl.
  split; [done|]. split; [done|]. apply failure_calls_times.
Qed.

Lemma validateBufferLimit_purges_every_queue_witness :
  let op cb := {| NonExecutedOperationStore.op_type := "insert";
                  NonExecutedOperationStore.op_db_command :=
                    {| requestId := None; body := 7 |};
                  NonExecutedOperationStore.op_options := no_options;
                  NonExecutedOperationStore.op_callback := cb;
                  NonExecutedOperationStore.op_db := 0 |} in
  let s := {| NonExecutedOperationStore.q_read := [op (Some 1)];
              NonExecutedOperationStore.q_write_reads := [op None];
              NonExecutedOperationStore.q_write := [op (Some 2); op (Some 1)] |} in
  times_called 1
    (NonExecutedOperationStore.validateBufferLimit (Some 3%Z) s).2 = 2.
Proof.
  intros op s.
  exact (proj2 (proj2 (validateBufferLimit_purges_every_queue 3 s 1
                         ltac:(discriminate) ltac:(vm_compute; reflexivity)))).
Defined.

(** X2: a drain of the reads followed by a drain of the writes, each with a
    connection checked out, dispatches every buffered operation once, as
    many dispatches as [count] counted, the reads with the connection
    checked out from the reader in their options and the others with the
    one checked out from the writer, and leaves the three queues empty, so
    that a further drain dispatches nothing; a drain whose checkout yields
    [null] or an [Error] dispatches nothing and keeps every operation
    buffered. *)
Theorem drains_dispatch_each_operation_once
    (s : NonExecutedOperationStore.commands) (reader writer : Connection) :
  let r1 := NonExecutedOperationStore.execute_queries (CConn reader) s in
  let r2 := NonExecutedOperationStore.execute_writes (CConn writer) r1.1 in
  r1.2 ++ r2.2
  = map (NonExecutedOperationStore.query_dispatch reader)
      (NonExecutedOperationStore.q_read s)
    ++ map (NonExecutedOperationStore.query_dispatch writer)
         (NonExecutedOperationStore.q_write_reads s)
    ++ map (NonExecutedOperationStore.insert_dispatch writer)
         (NonExecutedOperationStore.q_write s)
  ∧ (∀ e, e ∈ r1.2 →
          NonExecutedOperationStore.dispatch_connection e
          = Some (CConn reader))
  ∧ (∀ e, e ∈ r2.2 →
          NonExecutedOperationStore.dispatch_connection e
          = Some (CConn writer))
  ∧ length (r1.2 ++ r2.2) = NonExecutedOperationStore.count s
  ∧ r2.1 = NonExecutedOperationStore.new_store
  ∧ NonExecutedOperationStore.execute_queries (CConn reader) r2.1 = (r2.1, [])
  ∧ NonExecutedOperationStore.execute_writes (CConn writer) r2.1 = (r2.1, [])
  ∧ ∀ e, NonExecutedOperationStore.execute_queries CNull s = (s, [])
         ∧ NonExecutedOperationStore.execute_queries (CErr e) s = (s, [])
         ∧ NonExecutedOperationStore.execute_writes CNull s = (s, [])
         ∧ NonExecutedOperationStore.execute_writes (CErr e) s = (s, []).
Proof.
  intros r1 r2. subst r1 r2.
  unfold NonExecutedOperationStore.execute_queries,
    NonExecutedOperationStore.execute_writes,
    NonExecutedOperationStore.count.
  rewrite drain_query_spec. simpl.
  rewrite drain_query_spec, drain_insert_spec. simpl.
  rewrite !length_app, !length_map.
  split; [done|]. split; [|split].
  - intros e. rewrite list_elem_of_fmap. by intros (op & -> & _).
  - intros e. rewrite elem_of_app, !list_elem_of_fmap.
    by intros [(op & -> & _)|(op & -> & _)].
  - split; [lia|]. done.
Qed.

Lemma drains_dispatch_each_operation_once_witness :
  let reader := {| socketOptions_host := "rets.example.org";
                   socketOptions_port := 6104;
                   isConnected := true; isCompatible := true |} in
  let writer := {| socketOptions_host := "rets.example.org";
                   socketOptions_port := 6103;
                   isConnected := true; isCompatible := true |} in
  let op t n := {| NonExecutedOperationStore.op_type := t;
                   NonExecutedOperationStore.op_db_command :=
                     {| requestId := None; body := n |};
                   NonExecutedOperationStore.op_options := no_options;
                   NonExecutedOperationStore.op_callback := Some n;
                   NonExecutedOperationStore.op_db := 0 |} in
  let on c := {| opt_raw := None; opt_connection := CConn c; opt_w := None;
                 opt_j := None; opt_wtimeout := None;
                 opt_override_used_flag := None;
                 opt_bufferMaxEntries := None |} in
  let s := {| NonExecutedOperationStore.q_read := [op "query" 1];
              NonExecutedOperationStore.q_write_reads := [op "query" 2];
              NonExecutedOperationStore.q_write := [op "insert" 3] |} in
  let r1 := NonExecutedOperationStore.execute_queries (CConn reader) s in
  let r2 := NonExecutedOperationStore.execute_writes (CConn writer) r1.1 in
  r1.2 ++ r2.2
  = [ExecuteQueryCommand 0 {| requestId := None; body := 1 |} (on reader)
       (Some 1);
     ExecuteQueryCommand 0 {| requestId := None; body := 2 |} (on writer)
       (Some 2);
     ExecuteInsertCommand 0 {| requestId := None; body := 3 |} (on writer)
       (Some 3)]
  ∧ NonExecutedOperationStore.dispatch_connection
      (ExecuteInsertCommand 0 {| requestId := None; body := 3 |} (on writer)
         (Some 3))
    = Some (CConn writer).
Proof.
  intros reader writer op on s r1 r2.
  destruct (drains_dispatch_each_operation_once s reader writer)
    as (H1 & _ & H3 & _).
  split; [exact H1|]. apply H3. right. left.
Defined.

(** * Further properties of the dispatch of writes *)

Lemma with_callBackStore_same (b : Base) :
  with_callBackStore b (_callBackStore b) = b.
Proof. by destruct b. Qed.

(** Registering under an id the registry does not hold and taking the id
    out of both tables again gives the registry back. *)
Lemma delete_after_register (b : Base) (id : Z) (i : info) (ls : list listener) :
  _notReplied (_callBackStore b) !! id = None →
  _events (_callBackStore b) !! id = None →
  with_callBackStore b
    {| _notReplied := delete id (<[id := i]> (_notReplied (_callBackStore b)));
       _events := delete id (<[id := ls]> (_events (_callBackStore b))) |}
  = b.
Proof.
  intros Hn He. rewrite !delete_insert_id by done.
  destruct b as [[nr ev] ? ? ? ?]. done.
Qed.

(** X3: a write issued while no writer can be reached, with auto-reconnect
    on and no buffer limit, makes no call and touches neither the handle nor
    the registry: it is appended to the write queue, and the next
    [execute_writes] that checks out a connection dispatches it after the
    operations buffered before it, with the command and the callback it
    was issued with, and with its options as they were issued except that
    their connection is the checked-out connection. *)
Theorem buffered_write_is_replayed_by_drain {rt : JsRuntime}
    (self : Db) (db_command : Command) (options : Options)
    (callback : option fn) (config : ServerConfig) (now next_id : Z)
    (b : Base) (c : Connection) :
  _applicationClosed self = false → isDestroyed config = false →
  live_connection options = None → canWrite config = false →
  isAutoReconnect config = true → bufferMaxEntries self = (-1)%Z →
  ∃ b', _executeInsertCommand self db_command options callback config now
          next_id b = Returned (self, b', next_id, [])
    ∧ _callBackStore b' = _callBackStore b ∧ _dbStore b' = _dbStore b
    ∧ NonExecutedOperationStore.count (_commandsStore b')
      = S (NonExecutedOperationStore.count (_commandsStore b))
    ∧ (NonExecutedOperationStore.execute_writes (CConn c) (_commandsStore b')).2
      = (NonExecutedOperationStore.execute_writes (CConn c) (_commandsStore b)).2
        ++ [ExecuteInsertCommand (db_ref self) db_command
              {| opt_raw := opt_raw options; opt_connection := CConn c;
                 opt_w := opt_w options; opt_j := opt_j options;
                 opt_wtimeout := opt_wtimeout options;
                 opt_override_used_flag := opt_override_used_flag options;
                 opt_bufferMaxEntries := opt_bufferMaxEntries options |}
              callback].
Proof.
  intros Hclosed Hdestroyed Hlive Hwrite Hauto Hmax.
  unfold _executeInsertCommand.
  rewrite Hclosed, Hdestroyed, Hlive, Hwrite, Hauto, Hmax. simpl.
  eexists. split; [reflexivity|]. simpl.
  split; [done|]. split; [done|]. split.
  - unfold NonExecutedOperationStore.count. simpl. rewrite length_app. simpl.
    lia.
  - unfold NonExecutedOperationStore.execute_writes. simpl.
    rewrite !drain_query_spec, !drain_insert_spec. simpl.
    rewrite map_app, app_assoc. done.
Qed.

Lemma buffered_write_is_replayed_by_drain_witness :
  let c := {| socketOptions_host := "rets.example.org";
              socketOptions_port := 6103;
              isConnected := true; isCompatible := true |} in
  let self := {| db_ref := 1; databaseName := None; tag := 10;
                 openCalled := Some true; db_events := ∅;
                 db_options := no_options; db_raw := false;
                 bufferMaxEntries := (-1); _applicationClosed := false |} in
  let config := {| checkoutWriter := CNull; canWrite := false;
                   isAutoReconnect := true; isDestroyed := false |} in
  let b := new_Base {| obj_id := 0; obj_db := None |} in
  ∃ b', _executeInsertCommand (rt := digits_runtime) self
          {| requestId := None; body := 7 |}
          no_options (Some 1) config 0 1 b = Returned (self, b', 1%Z, [])
    ∧ (NonExecutedOperationStore.execute_writes (CConn c) (_commandsStore b')).2
      = [ExecuteInsertCommand 1 {| requestId := None; body := 7 |}
           {| opt_raw := None; opt_connection := CConn c; opt_w := None;
              opt_j := None; opt_wtimeout := None;
              opt_override_used_flag := None;
              opt_bufferMaxEntries := None |} (Some 1)].
Proof.
  intros c self config b.
  destruct (buffered_write_is_replayed_by_drain (rt := digits_runtime) self
              {| requestId := None; body := 7 |} no_options (Some 1) config
              0 1 b c eq_refl eq_refl eq_refl eq_refl eq_refl eq_refl)
    as (b' & H1 & _ & _ & _ & H2).
  exists b'. split; [exact H1|exact H2].
Defined.

(** X4: a write dispatched on a handle that was closed with [close(true)]
    calls its callback with "db closed by application", or raises that
    error when it has no callback, and changes nothing; so does a write on
    a destroyed server configuration, with its own error, and a write that
    finds no writer while auto-reconnect is off, with "no open
    connections": nothing is buffered, registered or written. A later
    [close()] without the flag clears the closed state again. *)
Theorem write_fails_fast_without_effect {rt : JsRuntime}
    (self : Db) (db_command : Command) (options : Options) (f : fn)
    (config : ServerConfig) (now next_id : Z) (b : Base)
    (callback0 : option fn) :
  let closed := (Db_close_with (CloseBoolean true) callback0 self).1.1 in
  _executeInsertCommand closed db_command options (Some f) config now next_id b
  = Returned (closed, b, next_id,
              [Call f (Some (mkError "db closed by application")) None None])
  ∧ _executeInsertCommand closed db_command options None config now next_id b
    = Threw "db closed by application"
  ∧ _applicationClosed (Db_close_with CloseOther callback0 closed).1.1 = false
  ∧ (_applicationClosed self = false → isDestroyed config = true →
     _executeInsertCommand self db_command options (Some f) config now
       next_id b
     = Returned (self, b, next_id,
                 [Call f (Some (mkError "Connection was destroyed by application"))
                    None None]))
  ∧ (_applicationClosed self = false → isDestroyed config = false →
     live_connection options = None → canWrite config = false →
     isAutoReconnect config = false →
     _executeInsertCommand self db_command options (Some f) config now
       next_id b
     = Returned (self, b, next_id,
                 [Call f (Some (mkError "no open connections")) None None])).
Proof.
  simpl. split; [done|]. split; [done|]. split; [done|]. split.
  - intros Hc Hd. unfold _executeInsertCommand. by rewrite Hc, Hd.
  - intros Hc Hd Hl Hw Ha. unfold _executeInsertCommand.
    by rewrite Hc, Hd, Hl, Hw, Ha.
Qed.

Lemma write_fails_fast_without_effect_witness :
  let self := {| db_ref := 1; databaseName := None; tag := 10;
                 openCalled := Some true; db_events := ∅;
                 db_options := no_options; db_raw := false;
                 bufferMaxEntries := (-1); _applicationClosed := false |} in
  let config := {| checkoutWriter := CNull; canWrite := false;
                   isAutoReconnect := false; isDestroyed := false |} in
  let b := new_Base {| obj_id := 0; obj_db := None |} in
  _executeInsertCommand (rt := digits_runtime) self
    {| requestId := None; body := 7 |} no_options
    (Some 1) config 0 1 b
  = Returned (self, b, 1%Z,
              [Call 1 (Some (mkError "no open connections")) None None]).
Proof.
  intros self config b.
  exact (proj2 (proj2 (proj2 (proj2
           (write_fails_fast_without_effect (rt := digits_runtime) self
              {| requestId := None; body := 7 |} no_options 1 config 0 1 b
              None)))) eq_refl eq_refl eq_refl eq_refl eq_refl).
Defined.

(** X5: when the connection reports on the write of an acknowledged write
    (a write concern that asks for an acknowledgement, dispatched with a
    callback), the caller's callback is called once, with what the
    connection reported, no document and the connection of the write, and
    the entry stored for the getLastError command is gone: the registry is
    as it was before the dispatch. *)
Theorem acknowledged_write_report_completes_request {rt : JsRuntime}
    (self : Db) (db_command : Command) (options : Options) (f : fn)
    (checkoutWriter : checkout) (c : Connection) (now next_id : Z)
    (b : Base) (err : option Error) :
  match opt_connection options with
  | CNull => checkoutWriter
  | specifiedConnection => specifiedConnection
  end = CConn c →
  isCompatible c = true →
  ids_below next_id b → next_id ≠ 0%Z →
  acknowledged (_getWriteConcern self options) →
  ∃ b1 next_id1 written,
    __executeInsertCommand self db_command options (Some f) checkoutWriter
      now next_id b
    = Returned (b1, next_id1, [ConnectionWrite c written])
    ∧ is_Some (_notReplied (_callBackStore b1) !! next_id)
    ∧ insert_write_callback (Some f) written err next_id1 b1
      = Returned (b, next_id1, [Call f err None (Some c)]).
Proof.
  intros Hconn Hcompat Hbelow Hnz Hack.
  destruct (Hbelow next_id) as [Hn He]; [lia|].
  unfold __executeInsertCommand. rewrite Hconn, Hcompat. simpl.
  apply wants_getLastError_spec in Hack. rewrite Hack.
  rewrite (registerHandler_assigned (createGetLastErrorCommand self) _ _ _ _
             _ next_id _ next_id
             {| requestId := Some next_id; body := getLastError_body |}
             (next_id + 1)%Z eq_refl Hnz).
  simpl.
  do 3 eexists. split; [reflexivity|]. simpl.
  split; [rewrite lookup_insert_eq; by eexists|].
  unfold insert_write_callback. simpl. unfold getRequestId. simpl.
  destruct (decide (next_id = 0%Z)) as [|_]; [done|].
  unfold _callHandler, listeners. simpl. rewrite !lookup_insert_eq. simpl.
  rewrite He. simpl. do 2 f_equal.
  unfold removeAllListeners, delete_notReplied. simpl.
  unfold with_callBackStore at 1. simpl.
  rewrite !delete_insert_id by done. by destruct b as [[? ?] ? ? ? ?].
Qed.

Lemma acknowledged_write_report_completes_request_witness :
  let c := {| socketOptions_host := "rets.example.org";
              socketOptions_port := 6103;
              isConnected := true; isCompatible := true |} in
  let self := {| db_ref := 1; databaseName := None; tag := 10;
                 openCalled := Some true; db_events := ∅;
                 db_options := no_options; db_raw := false;
                 bufferMaxEntries := (-1); _applicationClosed := false |} in
  let b := new_Base {| obj_id := 0; obj_db := None |} in
  ∃ b1 next_id1 written,
    __executeInsertCommand (rt := digits_runtime) self
      {| requestId := Some 4%Z; body := 9 |}
      no_options (Some 1) (CConn c) 100 5 b
    = Returned (b1, next_id1, [ConnectionWrite c written])
    ∧ insert_write_callback (Some 1) written
        (Some (mkError "socket closed")) next_id1 b1
      = Returned (b, next_id1,
                  [Call 1 (Some (mkError "socket closed")) None (Some c)]).
Proof.
  intros c self b.
  destruct (acknowledged_write_report_completes_request
              (rt := digits_runtime) self
              {| requestId := Some 4%Z; body := 9 |} no_options 1 (CConn c) c
              100 5 b (Some (mkError "socket closed")) eq_refl eq_refl)
    as (b1 & n1 & w & H1 & _ & H2).
  - intros k Hk. split; apply lookup_empty.
  - discriminate.
  - left. exists 1%Z. split; [reflexivity|lia].
  - exists b1, n1, w. split; [exact H1|exact H2].
Defined.

(** X6: a write with a callback whose write concern asks for no
    acknowledgement is written alone and registers nothing; the function
    handed to [connection.write] then reads the request id of a second
    command that does not exist, so whenever the connection reports on such
    a write, with or without an error, that function raises and the caller's
    callback is not called. Without a callback the same report does
    nothing. *)
Theorem unacknowledged_write_report_raises {rt : JsRuntime}
    (self : Db) (db_command : Command) (options : Options) (f : fn)
    (checkoutWriter : checkout) (c : Connection) (now next_id : Z)
    (b : Base) (err : option Error) :
  match opt_connection options with
  | CNull => checkoutWriter
  | specifiedConnection => specifiedConnection
  end = CConn c →
  isCompatible c = true →
  ¬ acknowledged (_getWriteConcern self options) →
  __executeInsertCommand self db_command options (Some f) checkoutWriter
    now next_id b
  = Returned (b, next_id, [ConnectionWrite c [db_command]])
  ∧ (∃ msg, insert_write_callback (Some f) [db_command] err next_id b
            = Threw msg)
  ∧ insert_write_callback None [db_command] err next_id b
    = Returned (b, next_id, []).
Proof.
  intros Hconn Hcompat Hnack.
  unfold __executeInsertCommand. rewrite Hconn, Hcompat. simpl.
  destruct (wants_getLastError (_getWriteConcern self options)) eqn:Hw.
  - apply wants_getLastError_spec in Hw. done.
  - split; [done|]. split; [by eexists|done].
Qed.

Lemma unacknowledged_write_report_raises_witness :
  let c := {| socketOptions_host := "rets.example.org";
              socketOptions_port := 6103;
              isConnected := true; isCompatible := true |} in
  let self := {| db_ref := 1; databaseName := None; tag := 10;
                 openCalled := Some true; db_events := ∅;
                 db_options := no_options; db_raw := false;
                 bufferMaxEntries := (-1); _applicationClosed := false |} in
  let options := {| opt_raw := None; opt_connection := CNull;
                    opt_w := Some (WNum 0); opt_j := None;
                    opt_wtimeout := None; opt_override_used_flag := None;
                    opt_bufferMaxEntries := None |} in
  let b := new_Base {| obj_id := 0; obj_db := None |} in
  ∃ msg, insert_write_callback (Some 1) [{| requestId := None; body := 9 |}]
           None 5 b = Threw msg.
Proof.
  intros c self options b.
  refine (proj1 (proj2 (unacknowledged_write_report_raises
                          (rt := digits_runtime) self
                          {| requestId := None; body := 9 |} options 1
                          (CConn c) c 100 5 b None eq_refl eq_refl _))).
  intros [(n & Hn & Hpos)|[(s & Hs & _)|[H|H]]].
  - injection Hn as <-. lia.
  - discriminate.
  - discriminate.
  - discriminate.
Defined.

(** X7: how a write concern is resolved. Options of the operation that set
    [w] or a boolean [j] decide alone, whatever the handle's options say:
    the concern has their [w], [j] when it is [true], and their [wtimeout].
    In particular [{j: false}] without [w] resolves to a concern with
    neither [w] nor [j], which asks for no acknowledgement even on a handle
    whose own options ask for one. When the operation sets neither and the
    handle's options set [w] or a boolean [j], the concern has the handle's
    [w], the handle's [j] when it is [true], and the handle's [wtimeout].
    When those set neither either, the concern is [{w: 1}]: acknowledged,
    and without the [wtimeout] the operation may have set. *)
Theorem write_concern_resolution {rt : JsRuntime} (self : Db)
    (options : Options) :
  (is_set (opt_w options) || is_set (opt_j options) = true →
   _getWriteConcern self options
   = {| wc_w := opt_w options;
        wc_j := match opt_j options with Some true => Some true | _ => None end;
        wc_wtimeout := opt_wtimeout options |}
   ∧ ∀ other, _getWriteConcern other options = _getWriteConcern self options)
  ∧ (opt_w options = None → opt_j options = Some false →
     _getWriteConcern self options
     = {| wc_w := None; wc_j := None; wc_wtimeout := opt_wtimeout options |}
     ∧ wants_getLastError (_getWriteConcern self options) = false)
  ∧ (opt_w options = None → opt_j options = None →
     is_set (opt_w (db_options self)) || is_set (opt_j (db_options self))
     = true →
     _getWriteConcern self options
     = {| wc_w := opt_w (db_options self);
          wc_j := match opt_j (db_options self) with
                  | Some true => Some true
                  | _ => None
                  end;
          wc_wtimeout := opt_wtimeout (db_options self) |})
  ∧ (opt_w options = None → opt_j options = None →
     _getWriteConcern self options = _getWriteConcern self no_options)
  ∧ (opt_w options = None → opt_j options = None →
     opt_w (db_options self) = None → opt_j (db_options self) = None →
     _getWriteConcern self options
     = {| wc_w := Some (WNum 1); wc_j := None; wc_wtimeout := None |}
     ∧ wants_getLastError (_getWriteConcern self options) = true).
Proof.
  unfold _getWriteConcern. split; [|split; [|split; [|split]]].
  - intros H. rewrite H. done.
  - intros Hw Hj. rewrite Hw, Hj. simpl.
    unfold _setWriteConcernHash. rewrite Hw, Hj. done.
  - intros Hw Hj H. rewrite Hw, Hj, H. done.
  - intros Hw Hj. rewrite Hw, Hj. done.
  - intros Hw Hj Hw' Hj'. rewrite Hw, Hj, Hw', Hj'. done.
Qed.

Lemma write_concern_resolution_witness :
  let with_w := {| opt_raw := None; opt_connection := CNull;
                   opt_w := Some (WStr "majority"); opt_j := Some true;
                   opt_wtimeout := Some 250%Z; opt_override_used_flag := None;
                   opt_bufferMaxEntries := None |} in
  let j_false := {| opt_raw := None; opt_connection := CNull;
                    opt_w := None; opt_j := Some false;
                    opt_wtimeout := Some 500%Z;
                    opt_override_used_flag := None;
                    opt_bufferMaxEntries := None |} in
  let self := {| db_ref := 1; databaseName := None; tag := 10;
                 openCalled := Some true; db_events := ∅;
                 db_options := with_w; db_raw := false;
                 bufferMaxEntries := (-1); _applicationClosed := false |} in
  wants_getLastError (rt := digits_runtime) (_getWriteConcern self j_false)
  = false
  ∧ _getWriteConcern self no_options
    = {| wc_w := Some (WStr "majority"); wc_j := Some true;
         wc_wtimeout := Some 250%Z |}.
Proof.
  intros with_w j_false self.
  split.
  - exact (proj2 (proj1 (proj2 (write_concern_resolution
                                  (rt := digits_runtime) self j_false))
                    eq_refl eq_refl)).
  - exact (proj1 (proj2 (proj2 (write_concern_resolution
                                  (rt := digits_runtime) self no_options)))
             eq_refl eq_refl eq_refl).
Defined.

(** * Properties of the dispatch of queries *)

(** X8: a query dispatched with a callback on one connection (the one named
    in its options, else the reader checked out) is registered under the
    request id of its command, with the connection and the exhaust flag of
    its options, and written once. When the connection then reports the
    write without an error nothing happens and the request stays pending;
    when it reports an error the caller's callback is called once with that
    error and the connection, and the registry is as it was before the
    dispatch. *)
Theorem query_write_error_completes_request
    (self : Db) (db_command : Command) (options : QueryOptions) (f : fn)
    (checkoutReader : checkout) (allRawConnections : list checkout)
    (clock : nat → Z) (next_id : Z) (b : Base) (c : Connection) (e : Error) :
  default false (qo_onAll options) = false →
  match opt_connection (qo_options options) with
  | CNull => checkoutReader
  | specified => specified
  end = CConn c →
  next_id ≠ 0%Z →
  let id := (getRequestId db_command next_id).1.1 in
  _notReplied (_callBackStore b) !! id = None →
  _events (_callBackStore b) !! id = None →
  ∃ b1 written next_id1,
    __executeQueryCommand self db_command options (Some f) checkoutReader
      allRawConnections clock next_id b
    = Returned (b1, written, next_id1, [ConnectionWrite c [written]])
    ∧ requestId written = Some id
    ∧ _notReplied (_callBackStore b1) !! id
      = Some {| start := clock 0;
                raw := default (db_raw self) (opt_raw (qo_options options));
                connection := Some c;
                exhaust := default false (qo_exhaust options) |}
    ∧ listeners (_callBackStore b1) id = [OnceWrapper f]
    ∧ query_write_callback written None next_id1 b1
      = (b1, written, next_id1, [])
    ∧ query_write_callback written (Some e) next_id1 b1
      = (b, written, next_id1, [Call f (Some e) None (Some c)]).
Proof.
  intros HonAll Hconn Hnz id Hn He.
  assert (∃ written next_id1,
            getRequestId db_command next_id = (id, written, next_id1)
            ∧ requestId written = Some id ∧ id ≠ 0%Z
            ∧ getRequestId written next_id1 = (id, written, next_id1))
    as (written & next_id1 & Hget & Hwritten & Hidnz & Hagain).
  { subst id. unfold getRequestId.
    destruct (requestId db_command) as [r|] eqn:Hr.
    - destruct (decide (r = 0%Z)) as [->|Hr0]; simpl.
      + do 2 eexists. split; [reflexivity|]. simpl.
        destruct (decide (next_id = 0%Z)); done.
      + do 2 eexists. split; [reflexivity|]. rewrite Hr.
        destruct (decide (r = 0%Z)); done.
    - simpl. do 2 eexists. split; [reflexivity|]. simpl.
      destruct (decide (next_id = 0%Z)); done. }
  unfold __executeQueryCommand. rewrite HonAll. simpl.
  destruct (opt_connection (qo_options options)) as [|e0|c0];
    [rewrite Hconn|done|injection Hconn as ->].
  all: simpl.
  all: rewrite (registerHandler_assigned _ _ _ _ _ _ _ _ _ _ _ Hget Hidnz);
    simpl.
  all: do 3 eexists; (split; [reflexivity|]); simpl.
  all: split; [done|]; rewrite lookup_insert_eq; split; [done|].
  all: split; [unfold listeners; simpl; rewrite lookup_insert_eq; simpl;
               by rewrite He|].
  all: split; [done|].
  all: unfold query_write_callback; rewrite Hagain.
  all: unfold _callHandler, listeners; simpl; rewrite !lookup_insert_eq; simpl.
  all: rewrite He; simpl; do 3 f_equal.
  all: unfold with_callBackStore, removeAllListeners, delete_notReplied; simpl.
  all: rewrite !delete_insert_id by done; by destruct b as [[? ?] ? ? ? ?].
Qed.

Lemma query_write_error_completes_request_witness :
  let c := {| socketOptions_host := "rets.example.org";
              socketOptions_port := 6103;
              isConnected := true; isCompatible := true |} in
  let self := {| db_ref := 1; databaseName := None; tag := 10;
                 openCalled := Some true; db_events := ∅;
                 db_options := no_options; db_raw := false;
                 bufferMaxEntries := (-1); _applicationClosed := false |} in
  let options := {| qo_options := no_options; qo_onAll := None;
                    qo_exhaust := Some true |} in
  let b := new_Base {| obj_id := 0; obj_db := None |} in
  ∃ b1 written next_id1,
    __executeQueryCommand self {| requestId := None; body := 9 |} options
      (Some 1) (CConn c) [] (fun _ => 100%Z) 5 b
    = Returned (b1, written, next_id1, [ConnectionWrite c [written]])
    ∧ query_write_callback written (Some (mkError "socket closed"))
        next_id1 b1
      = (b, written, next_id1,
         [Call 1 (Some (mkError "socket closed")) None (Some c)]).
Proof.
  intros c self options b.
  destruct (query_write_error_completes_request self
              {| requestId := None; body := 9 |} options 1 (CConn c) []
              (fun _ => 100%Z) 5 b c (mkError "socket closed")
              eq_refl eq_refl ltac:(discriminate) (lookup_empty _)
              (lookup_empty _))
    as (b1 & w & n1 & H1 & _ & _ & _ & _ & H2).
  exists b1, w, n1. split; [exact H1|exact H2].
Defined.

Lemma onAll_loop_registers (cs : list Connection) :
  ∀ (i : nat) (f : fn) (raw0 : bool) (db_command : Command)
    (clock : nat → Z) (next_id : Z) (b : Base),
    let id0 := (getRequestId db_command next_id).1.1 in
    let next0 := (getRequestId db_command next_id).2 in
    (0 < id0)%Z → (id0 < next0)%Z → ids_below id0 b →
    ∃ b' db_command' next_id' calls,
      onAll_loop (CConn <$> cs) i f raw0 db_command clock next_id b
      = Returned (b', db_command', next_id', calls)
      ∧ size (_notReplied (_callBackStore b'))
        = size (_notReplied (_callBackStore b)) + length cs
      ∧ (∀ k, (k < id0)%Z →
           _notReplied (_callBackStore b') !! k
           = _notReplied (_callBackStore b) !! k
           ∧ _events (_callBackStore b') !! k
             = _events (_callBackStore b) !! k)
      ∧ Forall2 (fun call c =>
                   ∃ written k i0,
                     call = ConnectionWrite c [written]
                     ∧ requestId written = Some k ∧ (id0 ≤ k)%Z
                     ∧ listeners (_callBackStore b') k = [OnceWrapper f]
                     ∧ _notReplied (_callBackStore b') !! k = Some i0
                     ∧ connection i0 = Some c)
          calls cs.
Proof.
  induction cs as [|c rest IH];
    intros i f raw0 db_command clock next_id b id0 next0 Hpos Hlt Hbelow.
  - do 4 eexists. split; [reflexivity|]. simpl.
    split; [lia|]. split; [done|constructor].
  - destruct (getRequestId db_command next_id) as [[id written] next1] eqn:Hget.
    simpl in id0, next0. subst id0 next0.
    assert (requestId written = Some id) as Hwritten.
    { unfold getRequestId in Hget.
      destruct (requestId db_command) as [r|] eqn:Hr;
        [destruct (decide (r = 0%Z))|]; by simplify_eq. }
    destruct (Hbelow id) as [Hn He]; [lia|].
    set (i1 := {| start := clock i; raw := raw0; connection := Some c;
                  exhaust := false |}).
    set (b1 := with_callBackStore b
                 {| _notReplied := <[id := i1]> (_notReplied (_callBackStore b));
                    _events := <[id := [OnceWrapper f]]>
                                 (_events (_callBackStore b)) |}).
    set (db_command2 := {| requestId := Some next1; body := body written |}).
    assert (getRequestId db_command2 (next1 + 1)
            = (next1, db_command2, (next1 + 1)%Z)) as Hget2.
    { unfold getRequestId. simpl. destruct (decide (next1 = 0%Z)); [lia|done]. }
    destruct (IH (S i) f raw0 db_command2 clock (next1 + 1)%Z b1)
      as (b' & db_command' & next_id' & calls & Hloop & Hsize & Hframe & Hall).
    { rewrite Hget2. simpl. lia. }
    { rewrite Hget2. simpl. lia. }
    { rewrite Hget2. simpl. intros k Hk. simpl.
      rewrite !lookup_insert_ne by lia. apply Hbelow. lia. }
    rewrite Hget2 in Hframe, Hall. simpl in Hframe, Hall.
    exists b', db_command', next_id', (ConnectionWrite c [written] :: calls).
    split.
    { cbn [fmap list_fmap onAll_loop].
      rewrite (registerHandler_assigned _ _ _ _ _ _ _ _ _ _ _ Hget)
        by lia.
      simpl. unfold listeners. rewrite He. simpl.
      fold i1. fold b1. unfold updateRequestId. fold db_command2.
      by rewrite Hloop. }
    split.
    { rewrite Hsize. simpl. rewrite map_size_insert_None by done. lia. }
    split.
    { intros k Hk. destruct (Hframe k) as [H1 H2]; [lia|].
      rewrite H1, H2. simpl. rewrite !lookup_insert_ne by lia. done. }
    constructor.
    + destruct (Hframe id) as [H1 H2]; [lia|].
      exists written, id, i1. split; [done|]. split; [done|]. split; [lia|].
      split; [unfold listeners; rewrite H2; simpl;
              by rewrite lookup_insert_eq|].
      split; [rewrite H1; simpl; by rewrite lookup_insert_eq|done].
    + eapply Forall2_impl; [exact Hall|].
      intros call c0 (w & k & i0 & ? & ? & ? & ?).
      exists w, k, i0. split; [done|]. split; [done|]. split; [lia|done].
Qed.

(** X9: a query broadcast with [onAll] over connections that are all live
    writes its command once to every connection, in order, and registers
    the caller's callback once per connection, each time under the request
    id the command had when it was written and with that connection as
    metadata: the registry grows by one entry per connection, and no entry
    it held before is touched. *)
Theorem onAll_registers_once_per_connection
    (self : Db) (db_command : Command) (options : QueryOptions) (f : fn)
    (checkoutReader : checkout) (cs : list Connection) (clock : nat → Z)
    (next_id : Z) (b : Base) :
  qo_onAll options = Some true →
  requestId db_command = None → (0 < next_id)%Z → ids_below next_id b →
  ∃ b' db_command' next_id' calls,
    __executeQueryCommand self db_command options (Some f) checkoutReader
      (CConn <$> cs) clock next_id b
    = Returned (b', db_command', next_id', calls)
    ∧ size (_notReplied (_callBackStore b'))
      = size (_notReplied (_callBackStore b)) + length cs
    ∧ (∀ k, (k < next_id)%Z →
         _notReplied (_callBackStore b') !! k
         = _notReplied (_callBackStore b) !! k
         ∧ _events (_callBackStore b') !! k
           = _events (_callBackStore b) !! k)
    ∧ Forall2 (fun call c =>
                 ∃ written k i0,
                   call = ConnectionWrite c [written]
                   ∧ requestId written = Some k ∧ (next_id ≤ k)%Z
                   ∧ listeners (_callBackStore b') k = [OnceWrapper f]
                   ∧ _notReplied (_callBackStore b') !! k = Some i0
                   ∧ connection i0 = Some c)
        calls cs.
Proof.
  intros HonAll Hreq Hpos Hbelow.
  unfold __executeQueryCommand. rewrite HonAll. simpl.
  pose proof (onAll_loop_registers cs 0 f
                (default (db_raw self) (opt_raw (qo_options options)))
                db_command clock next_id b) as H.
  unfold getRequestId in H. rewrite Hreq in H. simpl in H.
  apply H; [lia|lia|done].
Qed.

Lemma onAll_registers_once_per_connection_witness :
  let c p := {| socketOptions_host := "rets.example.org";
                socketOptions_port := p;
                isConnected := true; isCompatible := true |} in
  let self := {| db_ref := 1; databaseName := None; tag := 10;
                 openCalled := Some true; db_events := ∅;
                 db_options := no_options; db_raw := false;
                 bufferMaxEntries := (-1); _applicationClosed := false |} in
  let options := {| qo_options := no_options; qo_onAll := Some true;
                    qo_exhaust := None |} in
  let b := new_Base {| obj_id := 0; obj_db := None |} in
  ∃ b' db_command' next_id' calls,
    __executeQueryCommand self {| requestId := None; body := 9 |} options
      (Some 1) CNull [CConn (c 6103%Z); CConn (c 6104%Z)] (fun _ => 100%Z)
      5 b
    = Returned (b', db_command', next_id', calls)
    ∧ size (_notReplied (_callBackStore b')) = 2.
Proof.
  intros c self options b.
  destruct (onAll_registers_once_per_connection self
              {| requestId := None; body := 9 |} options 1 CNull
              [c 6103%Z; c 6104%Z] (fun _ => 100%Z) 5 b eq_refl eq_refl
              ltac:(reflexivity))
    as (b' & cmd' & n' & calls & H1 & H2 & _).
  - intros k Hk. split; apply lookup_empty.
  - exists b', cmd', n', calls. split; [exact H1|exact H2].
Defined.

Lemma onAll_reports_calls (f : fn) (errs : list (option Error)) :
  ∀ (db_command : Command) (n next_id : Z) (b : Base),
    (onAll_reports f db_command errs n next_id b).2
    = (fun err => Call f err None None) <$> drop (Z.to_nat (n - 1)) errs.
Proof.
  induction errs as [|err rest IH]; intros db_command n next_id b.
  - by rewrite drop_nil.
  - cbn [onAll_reports]. unfold onAll_write_callback.
    destruct (match err with
              | Some _ =>
                  let '(id, db_command', next_id') :=
                    getRequestId db_command next_id in
                  (_removeHandler id b, db_command', next_id')
              | None => (b, db_command, next_id)
              end) as [[b1 cmd1] next1].
    specialize (IH cmd1 (n - 1)%Z next1 b1).
    destruct (onAll_reports f cmd1 rest (n - 1) next1 b1) as [[b2 n2] calls2].
    simpl in IH |- *. rewrite IH.
    destruct (decide (n - 1 ≤ 0)%Z) as [Hle|Hgt].
    + replace (Z.to_nat (n - 1)) with 0%nat by lia.
      replace (Z.to_nat (n - 1 - 1)) with 0%nat by lia. done.
    + replace (Z.to_nat (n - 1)) with (S (Z.to_nat (n - 1 - 1))) by lia.
      done.
Qed.

(** X10: the countdown of a broadcast. Started at the number of connections
    written to, it calls the caller's callback on no report but the last:
    after every connection has reported once, the callback has been called
    once, with what the last report carried; while a report is outstanding
    it has not been called at all. A broadcast over no connection never
    calls it. *)
Theorem onAll_countdown_calls_back_on_last_report
    (f : fn) (db_command : Command) (errs : list (option Error))
    (last_err : option Error) (next_id : Z) (b : Base) :
  (onAll_reports f db_command (errs ++ [last_err])
     (Z.of_nat (length (errs ++ [last_err]))) next_id b).2
  = [Call f last_err None None]
  ∧ (onAll_reports f db_command errs
       (Z.of_nat (length (errs ++ [last_err]))) next_id b).2 = []
  ∧ (onAll_reports f db_command [] 0 next_id b).2 = [].
Proof.
  rewrite !onAll_reports_calls, length_app. simpl.
  split; [|split; [|done]].
  - replace (Z.to_nat (Z.of_nat (length errs + 1) - 1)) with (length errs)
      by lia.
    by rewrite drop_app_length.
  - replace (Z.to_nat (Z.of_nat (length errs + 1) - 1)) with (length errs)
      by lia.
    by rewrite drop_all.
Qed.

(** * Further properties of the callback store *)

Section registry_invariant.

Lemma consistent_delete (cs : CallbackStore) (k : Z) :
  registry_consistent cs →
  registry_consistent {| _notReplied := delete k (_notReplied cs);
                         _events := delete k (_events cs) |}.
Proof.
  intros H k'. unfold listeners. simpl.
  destruct (decide (k' = k)) as [->|Hne].
  - rewrite !lookup_delete_eq. simpl. split; [by intros [? ?]|done].
  - rewrite !lookup_delete_ne by done. apply H.
Qed.

Lemma consistent_register (id : Z) (raw0 : bool) (conn : option Connection)
    (exhaust0 : exhaust_arg) (callback : option fn) (now : Z) (b b' : Base) :
  registry_consistent (_callBackStore b) →
  registerHandler_at id raw0 conn exhaust0 callback now b = Returned b' →
  registry_consistent (_callBackStore b').
Proof.
  intros H Hr. unfold registerHandler_at in Hr.
  assert (∀ f e,
            registry_consistent
              {| _notReplied :=
                   <[id := {| start := now; raw := raw0; connection := conn;
                              exhaust := e |}]>
                     (_notReplied (_callBackStore b));
                 _events := <[id := listeners (_callBackStore b) id
                                     ++ [OnceWrapper f]]>
                              (_events (_callBackStore b)) |}) as Hins.
  { intros f e k.
    destruct (decide (k = id)) as [->|Hne].
    - simpl. rewrite lookup_insert_eq. split; [|by eexists].
      intros _ Hnil. unfold listeners in Hnil. simpl in Hnil.
      rewrite lookup_insert_eq in Hnil. simpl in Hnil.
      by apply app_eq_nil in Hnil as [_ ?].
    - specialize (H k). unfold listeners in *. simpl.
      by rewrite !lookup_insert_ne. }
  destruct exhaust0 as [e|f]; [destruct callback as [f|]; [|done]|];
    injection Hr as <-; apply Hins.
Qed.

Lemma consistent_callHandler (id : Z) (doc : option value)
    (err : option Error) (b : Base) :
  registry_consistent (_callBackStore b) →
  registry_consistent (_callBackStore (_callHandler id doc err b).1).
Proof.
  intros H. unfold _callHandler.
  destruct (listeners (_callBackStore b) id) as [|first rest]; [done|].
  destruct (listener_prop first);
    [destruct (_notReplied (_callBackStore b) !! id)|];
    simpl; by apply (consistent_delete (_callBackStore b) id).
Qed.

Lemma consistent_flushAll_loop (keys : list Z) (err : option Error) (b : Base) :
  registry_consistent (_callBackStore b) →
  registry_consistent (_callBackStore (flushAll_loop keys err b).1).
Proof.
  revert b. induction keys as [|k rest IH]; intros b H; [done|].
  simpl. pose proof (consistent_callHandler k None err b H) as H1.
  destruct (_callHandler k None err b) as [b1 calls1]. simpl in H1.
  specialize (IH b1 H1). destruct (flushAll_loop rest err b1). done.
Qed.

Lemma store_emit_delete_eq (k : Z) (err : option Error) (cs : CallbackStore) :
  removeAllListeners k (delete_notReplied k (store_emit k err cs).1)
  = {| _notReplied := delete k (_notReplied cs);
       _events := delete k (_events cs) |}.
Proof. apply store_emit_then_delete. Qed.

Lemma consistent_executeAll_loop (keys : list Z) (err : option Error)
    (cs : CallbackStore) :
  registry_consistent cs →
  registry_consistent (executeAll_loop keys err cs).1.
Proof.
  revert cs. induction keys as [|k rest IH]; intros cs H; [done|].
  cbn [executeAll_loop].
  pose proof (store_emit_delete_eq k err cs) as Hd.
  destruct (store_emit k err cs) as [cs1 calls1]. simpl in Hd. rewrite Hd.
  specialize (IH _ (consistent_delete cs k H)).
  destruct (executeAll_loop rest err _). done.
Qed.

Lemma consistent_serverSpecific_loop (keys : list Z) (host : string)
    (port : Z) (err : option Error) (cs : CallbackStore) :
  registry_consistent cs →
  registry_consistent (serverSpecific_loop keys host port err cs).1.2.
Proof.
  revert cs. induction keys as [|k rest IH]; intros cs H; [done|].
  cbn [serverSpecific_loop].
  destruct (_notReplied cs !! k) as [i|]; [|done].
  destruct (connection i) as [c|]; [|by apply IH].
  destruct (same_server host port c); [|by apply IH].
  pose proof (store_emit_delete_eq k err cs) as Hd.
  destruct (store_emit k err cs) as [cs1 calls1]. simpl in Hd. rewrite Hd.
  specialize (IH _ (consistent_delete cs k H)).
  destruct (serverSpecific_loop rest host port err _) as [[? ?] ?]. done.
Qed.

Lemma consistent_apply (b : Base) (op : registry_op) :
  registry_consistent (_callBackStore b) →
  registry_consistent (_callBackStore (registry_apply b op)).
Proof.
  intros H.
  destruct op as [id raw0 conn ex cb now|id doc err|id|keys err|keys err
                 |keys h p err]; simpl.
  - destruct (registerHandler_at id raw0 conn ex cb now b) eqn:Hr; [|done].
    by eapply consistent_register.
  - by apply consistent_callHandler.
  - by apply (consistent_delete (_callBackStore b) id).
  - by apply consistent_flushAll_loop.
  - unfold __executeAllCallbacksWithError.
    pose proof (consistent_executeAll_loop keys err _ H) as H1.
    destruct (executeAll_loop _ _ _). done.
  - unfold __executeAllServerSpecificErrorCallbacks.
    pose proof (consistent_serverSpecific_loop keys h p err _ H) as H1.
    destruct (serverSpecific_loop _ _ _ _ _) as [[? ?] ?]. done.
Qed.

End registry_invariant.

(** X11: the two tables of the registry stay in step. From a new registry,
    after any sequence of registrations, completions, removals and flushes
    (of every request, or of those of one server, whatever ids
    [Object.keys] lists for them), a request id has stored metadata exactly
    when it has a listener: no metadata is left behind without a handler,
    and no handler without metadata. *)
Theorem registry_tables_stay_in_step (ops : list registry_op)
    (o : emit_object) (k : Z) :
  let cs := _callBackStore (foldl registry_apply (new_Base o) ops) in
  is_Some (_notReplied cs !! k) ↔ listeners cs k ≠ [].
Proof.
  assert (∀ b, registry_consistent (_callBackStore b) →
               registry_consistent
                 (_callBackStore (foldl registry_apply b ops))) as H.
  { induction ops as [|op rest IH]; intros b Hb; [done|].
    simpl. apply IH. by apply consistent_apply. }
  apply H. intros k'. unfold listeners. simpl. rewrite !lookup_empty. simpl.
  split; [by intros [? ?]|done].
Qed.

Section flush_all_properties.
Variable err : option Error.

Lemma completion_calls_agree (cs1 cs2 : CallbackStore) (ks : list Z) :
  (∀ k, k ∈ ks → _events cs1 !! k = _events cs2 !! k) →
  flat_map (completion_calls err cs1) ks
  = flat_map (completion_calls err cs2) ks.
Proof.
  induction ks as [|k rest IH]; intros Hagree; [done|].
  simpl. unfold completion_calls at 1 3, listeners.
  rewrite (Hagree k) by (by left). f_equal.
  apply IH. intros k' Hk'. apply Hagree. by right.
Qed.

Lemma first_handler_call_agree (cs1 cs2 : CallbackStore) (ks : list Z) :
  (∀ k, k ∈ ks → _notReplied cs1 !! k = _notReplied cs2 !! k
                 ∧ _events cs1 !! k = _events cs2 !! k) →
  flat_map (first_handler_call err cs1) ks
  = flat_map (first_handler_call err cs2) ks.
Proof.
  induction ks as [|k rest IH]; intros Hagree; [done|].
  simpl. destruct (Hagree k) as [Hn He]; [by left|].
  unfold first_handler_call at 1 3, listeners. rewrite Hn, He. f_equal.
  apply IH. intros k' Hk'. apply Hagree. by right.
Qed.

Lemma executeAll_loop_spec (ks : list Z) (cs : CallbackStore) :
  NoDup ks →
  ∃ cs', executeAll_loop ks err cs
         = (cs', flat_map (completion_calls err cs) ks)
    ∧ ∀ k,
        (_notReplied cs' !! k
         = if bool_decide (k ∈ ks) then None else _notReplied cs !! k)
        ∧ (_events cs' !! k
           = if bool_decide (k ∈ ks) then None else _events cs !! k).
Proof.
  revert cs. induction ks as [|k0 rest IH]; intros cs Hnd.
  - exists cs. split; [done|]. intros k.
    by rewrite bool_decide_eq_false_2 by apply not_elem_of_nil.
  - apply NoDup_cons in Hnd as [Hk0 Hnd].
    cbn [executeAll_loop].
    destruct (store_emit_then_delete err k0 cs) as [Hcs2 Hcalls].
    destruct (store_emit k0 err cs) as [cs1 calls1]. simpl in Hcs2, Hcalls.
    rewrite Hcs2.
    destruct (IH {| _notReplied := delete k0 (_notReplied cs);
                    _events := delete k0 (_events cs) |} Hnd)
      as (cs' & Hloop & Hlook).
    rewrite Hloop. exists cs'. split.
    + f_equal. simpl. rewrite Hcalls. f_equal.
      apply completion_calls_agree. intros k Hk. simpl.
      apply lookup_delete_ne. intros ->. done.
    + intros k. destruct (Hlook k) as [Hn He]. simpl in Hn, He.
      destruct (decide (k = k0)) as [->|Hne].
      * rewrite (bool_decide_eq_false_2 (k0 ∈ rest)) in Hn, He by done.
        rewrite (bool_decide_eq_true_2 (k0 ∈ k0 :: rest)) by (by left).
        rewrite lookup_delete_eq in Hn. rewrite lookup_delete_eq in He. done.
      * rewrite lookup_delete_ne in Hn by done.
        rewrite lookup_delete_ne in He by done.
        assert (bool_decide (k ∈ k0 :: rest) = bool_decide (k ∈ rest)) as ->.
        { apply bool_decide_ext. rewrite elem_of_cons.
          split; [intros [?|?]; [by destruct Hne|done]|by right]. }
        done.
Qed.

Lemma flushAll_loop_spec (ks : list Z) (b : Base) :
  NoDup ks →
  (∀ k, k ∈ ks → is_Some (_notReplied (_callBackStore b) !! k)) →
  ∃ b', flushAll_loop ks err b
        = (b', flat_map (first_handler_call err (_callBackStore b)) ks)
    ∧ _dbStore b' = _dbStore b ∧ _commandsStore b' = _commandsStore b
    ∧ ∀ k,
        (_notReplied (_callBackStore b') !! k
         = if bool_decide (k ∈ ks)
              && bool_decide (listeners (_callBackStore b) k ≠ [])
           then None else _notReplied (_callBackStore b) !! k)
        ∧ (_events (_callBackStore b') !! k
           = if bool_decide (k ∈ ks)
                && bool_decide (listeners (_callBackStore b) k ≠ [])
             then None else _events (_callBackStore b) !! k).
Proof.
  revert b. induction ks as [|k0 rest IH]; intros b Hnd Hin.
  - exists b. split; [done|]. split; [done|]. split; [done|]. intros k.
    by rewrite bool_decide_eq_false_2 by apply not_elem_of_nil.
  - apply NoDup_cons in Hnd as [Hk0 Hnd].
    destruct (Hin k0) as [i Hi]; [by left|].
    assert (∀ k, bool_decide (k ∈ k0 :: rest)
                 = bool_decide (k = k0) || bool_decide (k ∈ rest)) as Hmem.
    { intros k. destruct (decide (k = k0)) as [->|Hne].
      - rewrite (bool_decide_eq_true_2 (k0 ∈ k0 :: rest)) by (by left).
        by rewrite (bool_decide_eq_true_2 (k0 = k0)).
      - rewrite (bool_decide_eq_false_2 (k = k0)) by done. simpl.
        apply bool_decide_ext. rewrite elem_of_cons.
        split; [intros [?|?]; [by destruct Hne|done]|by right]. }
    cbn [flushAll_loop flat_map].
    destruct (listeners (_callBackStore b) k0) as [|first more] eqn:Hls.
    + rewrite (callHandler_unregistered b k0 None err Hls).
      destruct (IH b Hnd) as (b' & Hloop & Hdb & Hcmd & Hlook).
      { intros k Hk. apply Hin. by right. }
      rewrite Hloop. exists b'. split.
      * f_equal. unfold first_handler_call at 2. by rewrite Hls.
      * split; [done|]. split; [done|]. intros k.
        destruct (Hlook k) as [Hn He]. rewrite Hmem.
        destruct (decide (k = k0)) as [->|Hne].
        -- rewrite (bool_decide_eq_false_2 (k0 ∈ rest)) in Hn, He by done.
           rewrite Hls.
           rewrite (bool_decide_eq_false_2 ([] ≠ [])) by (intros H; done).
           by rewrite andb_false_r.
        -- by rewrite (bool_decide_eq_false_2 (k = k0)) by done.
    + set (b1 := with_callBackStore b
                   {| _notReplied := delete k0 (_notReplied (_callBackStore b));
                      _events := delete k0 (_events (_callBackStore b)) |}).
      assert (_callHandler k0 None err b
              = (b1, first_handler_call err (_callBackStore b) k0)) as Hstep.
      { unfold _callHandler, first_handler_call. rewrite Hls, Hi.
        by destruct (listener_prop first). }
      rewrite Hstep.
      assert (∀ k, k ≠ k0 →
                _notReplied (_callBackStore b1) !! k
                = _notReplied (_callBackStore b) !! k
                ∧ _events (_callBackStore b1) !! k
                  = _events (_callBackStore b) !! k) as Hsame.
      { intros k Hk. simpl. by rewrite !lookup_delete_ne. }
      destruct (IH b1 Hnd) as (b' & Hloop & Hdb & Hcmd & Hlook).
      { intros k Hk. assert (k ≠ k0) as Hne by (intros ->; done).
        rewrite (proj1 (Hsame k Hne)). apply Hin. by right. }
      rewrite Hloop. exists b'. split.
      * f_equal. f_equal. apply first_handler_call_agree.
        intros k Hk. apply Hsame. intros ->. done.
      * split; [done|]. split; [done|]. intros k.
        destruct (Hlook k) as [Hn He]. rewrite Hmem.
        destruct (decide (k = k0)) as [->|Hne].
        -- rewrite (bool_decide_eq_false_2 (k0 ∈ rest)) in Hn, He by done.
           rewrite (bool_decide_eq_true_2 (k0 = k0)) by done.
           rewrite Hls. rewrite (bool_decide_eq_true_2 (_ :: _ ≠ [])) by done.
           simpl in Hn, He |- *.
           rewrite lookup_delete_eq in Hn. rewrite lookup_delete_eq in He.
           done.
        -- rewrite (bool_decide_eq_false_2 (k = k0)) by done. simpl.
           unfold listeners in Hn, He |- *.
           rewrite (proj1 (Hsame k Hne)) in Hn.
           rewrite (proj2 (Hsame k Hne)) in Hn, He.
           done.
Qed.

End flush_all_properties.

(** X12: with [keys] the ids [Object.keys] lists, the ids that have
    metadata, [__executeAllCallbacksWithError] calls every listener stored
    under every such id, all of them and not only the first, with
    [(err, null)]: id after id in the order of [keys], and for one id in
    the order the listeners were stored. It leaves the metadata table empty
    and those ids without listeners; the listeners of ids without metadata,
    the handles and the buffered operations are left as they were. *)
Theorem executeAllCallbacksWithError_empties_registry
    (keys : list Z) (err : option Error) (b : Base) :
  let cs := _callBackStore b in
  notRepliedToIds cs keys →
  let r := __executeAllCallbacksWithError keys err b in
  r.2 = flat_map (λ k, map (λ l, Call (listener_target l) err None None)
                         (listeners cs k)) keys
  ∧ _notReplied (_callBackStore r.1) = ∅
  ∧ (∀ k, _events (_callBackStore r.1) !! k
          = if bool_decide (is_Some (_notReplied cs !! k)) then None
            else _events cs !! k)
  ∧ _dbStore r.1 = _dbStore b ∧ _commandsStore r.1 = _commandsStore b.
Proof.
  intros cs [Hnd Hin] r. subst r. unfold __executeAllCallbacksWithError.
  fold cs.
  destruct (executeAll_loop_spec err keys cs Hnd) as (cs' & Hloop & Hlook).
  rewrite Hloop. simpl. split; [done|]. split; [|split; [|done]].
  - apply map_empty. intros k. destruct (Hlook k) as [Hn _]. rewrite Hn.
    case_bool_decide as Hk; [done|].
    destruct (_notReplied cs !! k) eqn:Hl; [|done].
    destruct Hk. apply Hin. by eexists.
  - intros k. destruct (Hlook k) as [_ He]. rewrite He.
    apply (f_equal (fun c : bool => if c then None else _events cs !! k)).
    apply bool_decide_ext. apply Hin.
Qed.

Lemma executeAllCallbacksWithError_empties_registry_witness :
  let entry := {| start := 100; raw := false; connection := None;
                  exhaust := false |} in
  let b := with_callBackStore (new_Base {| obj_id := 0; obj_db := None |})
             {| _notReplied := {[ 3%Z := entry; 4%Z := entry ]};
                _events := {[ 3%Z := [OnceWrapper 30; OnceWrapper 31];
                              4%Z := [OnceWrapper 40];
                              9%Z := [OnceWrapper 90] ]} |} in
  let r := __executeAllCallbacksWithError [3; 4]%Z
             (Some (mkError "connection closed")) b in
  r.2 = [Call 30 (Some (mkError "connection closed")) None None;
         Call 31 (Some (mkError "connection closed")) None None;
         Call 40 (Some (mkError "connection closed")) None None]
  ∧ _notReplied (_callBackStore r.1) = ∅
  ∧ _events (_callBackStore r.1) !! 9%Z = Some [OnceWrapper 90].
Proof.
  intros entry b r.
  destruct (executeAllCallbacksWithError_empties_registry [3; 4]%Z
              (Some (mkError "connection closed")) b
              (sorted_ids_listed (_callBackStore b)))
    as (Hcalls & Hempty & Hevents & _).
  split; [exact Hcalls|]. split; [exact Hempty|]. exact (Hevents 9%Z).
Defined.

(** X13: with [keys] the ids [Object.keys] lists, the ids that have
    metadata, [_flushAllCallHandlers] completes, with the error, every
    request id that has metadata and a listener: for each, id after id in
    the order of [keys], only the function of the first listener is called,
    with [(err, null, connection)], and metadata and listeners are removed.
    An id whose metadata has no listener is left in place, so the metadata
    table ends up empty exactly when every id with metadata has a listener,
    which holds whenever the two tables are in step. No handle and no
    buffered operation is touched. *)
Theorem flushAllCallHandlers_completes_first_listeners
    (keys : list Z) (err : option Error) (b : Base) :
  let cs := _callBackStore b in
  notRepliedToIds cs keys →
  let r := _flushAllCallHandlers keys err b in
  r.2 = flat_map (λ k, match listeners cs k, _notReplied cs !! k with
                       | l :: _, Some i =>
                           match listener_prop l with
                           | Some f => [Call f err None (connection i)]
                           | None => []
                           end
                       | _, _ => []
                       end) keys
  ∧ (∀ k, listeners cs k ≠ [] → is_Some (_notReplied cs !! k) →
          _notReplied (_callBackStore r.1) !! k = None
          ∧ listeners (_callBackStore r.1) k = [])
  ∧ (∀ k, listeners cs k = [] →
          _notReplied (_callBackStore r.1) !! k = _notReplied cs !! k)
  ∧ (registry_consistent cs → _notReplied (_callBackStore r.1) = ∅)
  ∧ _dbStore r.1 = _dbStore b ∧ _commandsStore r.1 = _commandsStore b.
Proof.
  intros cs [Hnd Hin] r. subst r. unfold _flushAllCallHandlers. fold cs.
  destruct (flushAll_loop_spec err keys b Hnd)
    as (b' & Hloop & Hdb & Hcmd & Hlook).
  { intros k Hk. by apply Hin. }
  fold cs in Hloop, Hlook. rewrite Hloop. simpl.
  split; [done|]. split; [|split; [|split; [|done]]].
  - intros k Hls Hk. destruct (Hlook k) as [Hn He].
    rewrite (bool_decide_eq_true_2 (k ∈ keys)) in Hn, He
      by (by apply Hin).
    rewrite (bool_decide_eq_true_2 (listeners cs k ≠ [])) in Hn, He by done.
    split; [done|]. unfold listeners. by rewrite He.
  - intros k Hls. destruct (Hlook k) as [Hn _]. rewrite Hn, Hls.
    rewrite (bool_decide_eq_false_2 ([] ≠ [])) by (intros H; done).
    by rewrite andb_false_r.
  - intros Hcons. apply map_empty. intros k. destruct (Hlook k) as [Hn _].
    rewrite Hn. destruct (_notReplied cs !! k) as [i|] eqn:Hk.
    + rewrite (bool_decide_eq_true_2 (k ∈ keys))
        by (apply Hin; by eexists).
      rewrite (bool_decide_eq_true_2 (listeners cs k ≠ [])); [done|].
      apply Hcons. by eexists.
    + by destruct (_ && _).
Qed.

Lemma flushAllCallHandlers_completes_first_listeners_witness :
  let entry c := {| start := 100; raw := false; connection := c;
                    exhaust := false |} in
  let up := {| socketOptions_host := "rets.example.org";
               socketOptions_port := 6104;
               isConnected := true; isCompatible := true |} in
  let b := with_callBackStore (new_Base {| obj_id := 0; obj_db := None |})
             {| _notReplied := {[ 3%Z := entry None;
                                  4%Z := entry (Some up);
                                  5%Z := entry None ]};
                _events := {[ 3%Z := [OnceWrapper 30; OnceWrapper 31];
                              4%Z := [OnceWrapper 40] ]} |} in
  let r := _flushAllCallHandlers [3; 4; 5]%Z
             (Some (mkError "connection closed")) b in
  r.2 = [Call 30 (Some (mkError "connection closed")) None None;
         Call 40 (Some (mkError "connection closed")) None (Some up)]
  ∧ _notReplied (_callBackStore r.1) !! 3%Z = None
  ∧ _notReplied (_callBackStore r.1) !! 5%Z = Some (entry None).
Proof.
  intros entry up b r.
  destruct (flushAllCallHandlers_completes_first_listeners [3; 4; 5]%Z
              (Some (mkError "connection closed")) b
              (sorted_ids_listed (_callBackStore b)))
    as (Hcalls & Hgone & Hkept & _).
  split; [exact Hcalls|]. split.
  - refine (proj1 (Hgone 3%Z _ _)); [discriminate|by eexists].
  - exact (Hkept 5%Z eq_refl).
Defined.

(** X14: registering a handler for a request id the registry does not hold
    makes [_hasHandler] true for it and lets [_findHandler] return the
    stored metadata and the wrapper of that handler; [_removeHandler] then
    gives back the registry as it was before the registration, without any
    call. Removing an id the registry does not hold changes nothing. *)
Theorem register_then_remove_restores_registry
    (id : Z) (raw0 : bool) (conn : option Connection) (ex : bool) (f : fn)
    (now : Z) (b : Base) :
  _notReplied (_callBackStore b) !! id = None →
  _events (_callBackStore b) !! id = None →
  _removeHandler id b = b
  ∧ ∃ b', registerHandler_at id raw0 conn (ExhaustFlag ex) (Some f) now b
          = Returned b'
    ∧ _hasHandler id b' = true
    ∧ _findHandler id b'
      = {| found_info := Some {| start := now; raw := raw0;
                                  connection := conn; exhaust := ex |};
           found_callback := Some (OnceWrapper f) |}
    ∧ _removeHandler id b' = b.
Proof.
  intros Hn He. split.
  - unfold _removeHandler, removeAllListeners, delete_notReplied. simpl.
    rewrite !delete_id by done. by destruct b as [[? ?] ? ? ? ?].
  - eexists. split; [reflexivity|]. simpl.
    unfold _hasHandler, _findHandler, _removeHandler, listeners,
      removeAllListeners, delete_notReplied, with_callBackStore. simpl.
    rewrite !lookup_insert_eq, He. simpl.
    split; [done|]. split; [done|].
    rewrite !delete_insert_id by done. by destruct b as [[? ?] ? ? ? ?].
Qed.

Lemma register_then_remove_restores_registry_witness :
  let b := new_Base {| obj_id := 0; obj_db := None |} in
  ∃ b', registerHandler_at 7 false None (ExhaustFlag true) (Some 1) 100 b
        = Returned b'
        ∧ _removeHandler 7 b' = b.
Proof.
  intros b.
  destruct (register_then_remove_restores_registry 7 false None true 1 100 b
              (lookup_empty _) (lookup_empty _))
    as (_ & b' & H1 & _ & _ & H2).
  exists b'. split; [exact H1|exact H2].
Defined.

(** * Further properties of the store of database handles *)

Lemma add_found_spec (name : option string) (_dbs : list Db) (found : bool) :
  DbStore.add_found name _dbs found
  = found || is_set (DbStore.fetch name _dbs).
Proof.
  revert found. induction _dbs as [|d rest IH]; intros found; simpl.
  - by rewrite orb_false_r.
  - destruct (decide (name = databaseName d)); simpl.
    + rewrite IH. simpl. by rewrite orb_true_r.
    + apply IH.
Qed.

Lemma fetch_app (name : option string) (l1 l2 : list Db) :
  DbStore.fetch name (l1 ++ l2)
  = match DbStore.fetch name l1 with
    | Some d => Some d
    | None => DbStore.fetch name l2
    end.
Proof.
  induction l1 as [|d rest IH]; simpl; [done|].
  by destruct (decide (name = databaseName d)).
Qed.

(** X15: the store keeps one handle per name. Adding a handle whose name
    the store already holds changes nothing, so [fetch] keeps returning the
    handle added first; adding one under a new name appends it, and [fetch]
    of that name then returns it; [fetch] of any other name is unaffected;
    and a store without two handles of one name stays so. *)
Theorem add_keeps_one_handle_per_name (db : Db) (_dbs : list Db) :
  (∀ d, DbStore.fetch (databaseName db) _dbs = Some d →
        DbStore.add db _dbs = _dbs)
  ∧ (DbStore.fetch (databaseName db) _dbs = None →
     DbStore.add db _dbs = _dbs ++ [db]
     ∧ DbStore.fetch (databaseName db) (DbStore.add db _dbs) = Some db)
  ∧ (∀ name, name ≠ databaseName db →
       DbStore.fetch name (DbStore.add db _dbs) = DbStore.fetch name _dbs)
  ∧ DbStore.add db (DbStore.add db _dbs) = DbStore.add db _dbs
  ∧ (NoDup (databaseName <$> _dbs) →
     NoDup (databaseName <$> DbStore.add db _dbs)).
Proof.
  unfold DbStore.add. rewrite add_found_spec. simpl.
  destruct (DbStore.fetch (databaseName db) _dbs) as [d0|] eqn:Hf; simpl.
  - split; [done|]. split; [done|]. split; [done|].
    rewrite add_found_spec, Hf. done.
  - split; [done|]. split.
    { intros _. split; [done|]. rewrite fetch_app, Hf. simpl.
      by destruct (decide (databaseName db = databaseName db)). }
    split.
    { intros name Hname. rewrite fetch_app.
      destruct (DbStore.fetch name _dbs); [done|]. simpl.
      by destruct (decide (name = databaseName db)). }
    split.
    { rewrite add_found_spec, fetch_app, Hf. simpl.
      by destruct (decide (databaseName db = databaseName db)). }
    intros Hnd. rewrite fmap_app. simpl.
    apply NoDup_app. split; [done|]. split; [|apply NoDup_singleton].
    intros name Hin Hname. apply list_elem_of_singleton in Hname as ->.
    apply list_elem_of_fmap in Hin as (d & Hd & Hin).
    rewrite fetch_None in Hf. by destruct (Hf d Hin).
Qed.

Lemma add_keeps_one_handle_per_name_witness :
  let named n r :=
    {| db_ref := r; databaseName := Some n; tag := 10;
       openCalled := Some true; db_events := ∅; db_options := no_options;
       db_raw := false; bufferMaxEntries := (-1);
       _applicationClosed := false |} in
  DbStore.add (named "agents" 2) [named "listings" 1; named "agents" 3]
  = [named "listings" 1; named "agents" 3]
  ∧ DbStore.fetch (Some "agents")
      (DbStore.add (named "agents" 2) [named "listings" 1])
    = Some (named "agents" 2).
Proof.
  intros named. split.
  - exact (proj1 (add_keeps_one_handle_per_name (named "agents" 2)
                    [named "listings" 1; named "agents" 3])
             (named "agents" 3) eq_refl).
  - exact (proj2 (proj1 (proj2 (add_keeps_one_handle_per_name
                                  (named "agents" 2) [named "listings" 1]))
                    eq_refl)).
Defined.

(** X16: a handle the constructor builds carries no name, so over a server
    configuration whose tracked handles were all built by the constructor
    only the first handle is ever tracked: a construction on an empty store
    tracks the new handle, a construction on a store that holds a handle
    leaves the store as it is, and the store never holds more than one
    handle. *)
Theorem constructor_tracks_first_handle_only
    (options : ctor_options) (ref : nat) (now : Z) (b : Base) (d : Db)
    (b' : Base) :
  unnamed_handles (_dbStore b) →
  Db_new AsServer options ref now b = Returned (d, b') →
  databaseName d = None ∧ tag d = now ∧ openCalled d = Some false
  ∧ _dbStore b' = match _dbStore b with [] => [d] | _ => _dbStore b end
  ∧ unnamed_handles (_dbStore b')
  ∧ (length (_dbStore b) ≤ 1 → length (_dbStore b') ≤ 1)
  ∧ _callBackStore b' = _callBackStore b.
Proof.
  intros Hun Hnew. unfold Db_new in Hnew.
  destruct (negb _ && _used b); [done|].
  injection Hnew as <- <-. simpl.
  split; [done|]. split; [done|]. split; [done|].
  assert (_dbStore (if negb (default false
                               (opt_override_used_flag
                                  match options with
                                  | OptionsObject o => o
                                  | _ => no_options
                                  end))
                    then set_used b else b) = _dbStore b) as Hdbs.
  { by destruct (negb _). }
  assert (_callBackStore (if negb (default false
                                     (opt_override_used_flag
                                        match options with
                                        | OptionsObject o => o
                                        | _ => no_options
                                        end))
                          then set_used b else b) = _callBackStore b) as Hcbs.
  { by destruct (negb _). }
  rewrite Hdbs, Hcbs. unfold DbStore.add. rewrite add_found_spec. simpl.
  destruct (_dbStore b) as [|d0 rest] eqn:Hstore; simpl.
  - split; [done|]. split; [|done].
    intros d1 Hd1. apply list_elem_of_singleton in Hd1 as ->. done.
  - rewrite (Hun d0) by (by left). simpl. done.
Qed.

Lemma constructor_tracks_first_handle_only_witness :
  let o := {| obj_id := 0; obj_db := None |} in
  let override := {| opt_raw := None; opt_connection := CNull;
                     opt_w := None; opt_j := None; opt_wtimeout := None;
                     opt_override_used_flag := Some true;
                     opt_bufferMaxEntries := None |} in
  ∃ d1 b1 d2 b2,
    Db_new AsServer OptionsUndefined 1 10 (new_Base o) = Returned (d1, b1)
    ∧ Db_new AsServer (OptionsObject override) 2 20 b1 = Returned (d2, b2)
    ∧ _dbStore b2 = [d1].
Proof.
  intros o override.
  destruct (Db_new AsServer OptionsUndefined 1 10 (new_Base o))
    as [[d1 b1]|] eqn:H1; [|discriminate].
  destruct (Db_new AsServer (OptionsObject override) 2 20 b1)
    as [[d2 b2]|] eqn:H2; [|vm_compute in H1; injection H1 as <- <-;
                            vm_compute in H2; discriminate].
  exists d1, b1, d2, b2. split; [done|]. split; [done|].
  destruct (constructor_tracks_first_handle_only OptionsUndefined 1 10
              (new_Base o) d1 b1) as (_ & _ & _ & Hs1 & Hu1 & _).
  { intros d Hd. by apply not_elem_of_nil in Hd. }
  { exact H1. }
  destruct (constructor_tracks_first_handle_only (OptionsObject override) 2 20
              b1 d2 b2 Hu1 H2) as (_ & _ & _ & Hs2 & _).
  rewrite Hs2, Hs1. reflexivity.
Defined.

(** X17: the guard against sharing a server configuration. A construction
    without the override flag marks the configuration as used, and on a
    configuration already marked it raises "A Server instance cannot be
    shared across multiple Db instances" and builds nothing; so a second
    construction without the flag always raises. A construction with the
    flag set succeeds on a used configuration and leaves the mark as it
    is. *)
Theorem constructor_refuses_shared_server
    (options : ctor_options) (ref : nat) (now : Z) (b : Base) :
  (overrides_used_flag options = false → _used b = true →
   Db_new AsServer options ref now b
   = Threw "A Server instance cannot be shared across multiple Db instances")
  ∧ (overrides_used_flag options = false → _used b = false →
     ∃ d b', Db_new AsServer options ref now b = Returned (d, b')
             ∧ _used b' = true
             ∧ ∀ options2 ref2 now2,
                 overrides_used_flag options2 = false →
                 Db_new AsServer options2 ref2 now2 b'
                 = Threw "A Server instance cannot be shared across multiple Db instances")
  ∧ (overrides_used_flag options = true →
     ∃ d b', Db_new AsServer options ref now b = Returned (d, b')
             ∧ _used b' = _used b).
Proof.
  assert (∀ o r n b0, overrides_used_flag o = false → _used b0 = true →
            Db_new AsServer o r n b0
            = Threw "A Server instance cannot be shared across multiple Db instances")
    as Hguard.
  { intros o r n b0 Ho Hu. unfold Db_new, overrides_used_flag in *.
    destruct o as [|o|]; simpl in *; by rewrite ?Ho, Hu. }
  split; [apply Hguard|]. split.
  - intros Ho Hu. unfold Db_new, overrides_used_flag in *.
    destruct options as [|o|]; simpl in *; rewrite ?Ho, Hu; simpl;
      do 2 eexists; (split; [reflexivity|]); (split; [done|]);
      intros o2 r2 n2 Ho2; by apply Hguard.
  - intros Ho. unfold Db_new, overrides_used_flag in *.
    destruct options as [|o|]; simpl in *; try done.
    rewrite Ho. simpl. do 2 eexists. split; [reflexivity|done].
Qed.

Lemma constructor_refuses_shared_server_witness :
  ∃ d b', Db_new AsServer OptionsUndefined 1 10
            (new_Base {| obj_id := 0; obj_db := None |}) = Returned (d, b')
          ∧ Db_new AsServer OptionsUndefined 2 20 b'
            = Threw "A Server instance cannot be shared across multiple Db instances".
Proof.
  destruct (proj1 (proj2 (constructor_refuses_shared_server OptionsUndefined
                            1 10 (new_Base {| obj_id := 0; obj_db := None |})))
              eq_refl eq_refl) as (d & b' & H1 & _ & H2).
  exists d, b'. split; [exact H1|]. by apply H2.
Defined.

(** X18: [Db.prototype.db] creates no handle. Asked for a name that no
    handle of the store carries, it calls the constructor with the name in
    the place of the server configuration, and that call raises; the store
    is never extended through it. The constructor of the client makes the
    same kind of call, with ['test'] in the place of the server
    configuration, so it raises whenever it is given a server
    configuration, and stores no handle when it is given none. *)
Theorem db_raises_for_unknown_name (self : Db) (dbName : option string)
    (ref : nat) (now : Z) (b : Base) :
  ((∀ d0, d0 ∈ _dbStore b → databaseName d0 ≠ dbName) →
   ∃ msg, Db_db self dbName ref now b = Threw msg)
  ∧ (∃ msg, libRETSClient true ref now b = Threw msg)
  ∧ libRETSClient false ref now b = Returned (None, b).
Proof.
  split; [|split; [by eexists|done]].
  intros Hnone. unfold Db_db. apply fetch_None in Hnone. rewrite Hnone.
  destruct dbName; by eexists.
Qed.

Lemma db_raises_for_unknown_name_witness :
  let o := {| obj_id := 0; obj_db := None |} in
  ∃ d b', Db_new AsServer OptionsUndefined 1 10 (new_Base o) = Returned (d, b')
          ∧ ∃ msg, Db_db d (Some "listings") 2 20 b' = Threw msg.
Proof.
  intros o. do 2 eexists. split; [reflexivity|].
  apply db_raises_for_unknown_name.
  intros d0 Hd0. apply list_elem_of_singleton in Hd0 as ->. discriminate.
Defined.

(** * Further properties of the broadcast of events *)

Lemma passes_filter_self (d : Db) : DbStore.passes_filter (Some d) d = false.
Proof.
  unfold DbStore.passes_filter. by rewrite !bool_decide_eq_true_2.
Qed.

(** The deliveries of a broadcast go down the store: no delivery is made
    twice, and the positions delivered to increase. *)
Lemma deliveries_in_store_order (event : string) (message : option Error)
    (object : option emit_object) (filterDb : option Db) (l : list Db)
    (n : nat) :
  let calls :=
    mjoin (imap (λ j d, delivery event message object filterDb (n + j) d) l) in
  NoDup calls
  ∧ StronglySorted lt (omap delivery_index calls)
  ∧ ∀ e, e ∈ calls → ∃ i, delivery_index e = Some i ∧ n ≤ i.
Proof.
  revert n. induction l as [|d rest IH]; intros n; simpl.
  - split; [constructor|]. split; [constructor|].
    intros e H. by apply not_elem_of_nil in H.
  - assert (imap ((λ j d0, delivery event message object filterDb (n + j) d0)
                  ∘ S) rest
            = imap (λ j d0, delivery event message object filterDb (S n + j) d0)
                rest) as ->.
    { apply imap_ext. intros j d0 _. simpl. f_equal. lia. }
    destruct (IH (S n)) as (Hnd & Hs & Hge). rewrite Nat.add_0_r.
    unfold delivery at 1 3 5. case_bool_decide; simpl.
    + split; [|split].
      * apply NoDup_cons. split; [|done]. intros Hin.
        destruct (Hge _ Hin) as (i & Hi & Hle). simpl in Hi.
        injection Hi as <-. lia.
      * constructor; [done|]. apply Forall_forall. intros i Hi.
        apply list_elem_of_omap in Hi as (e & He & Hei).
        destruct (Hge _ He) as (i' & Hi' & Hle). rewrite Hei in Hi'.
        injection Hi' as <-. lia.
      * intros e He. apply elem_of_cons in He as [->|He].
        -- by exists n.
        -- destruct (Hge _ He) as (i & ? & ?). exists i. split; [done|lia].
    + split; [done|]. split; [done|]. intros e He.
      destruct (Hge _ He) as (i & ? & ?). exists i. split; [done|lia].
Qed.

(** X19: broadcast without the rethrow flag, an event is sent to the handles
    of the store that have a listener for it and are not excluded, and to
    nothing else. A handle is excluded when a handle to exclude is given
    and it has both the name and the tag of that handle: a handle that
    differs from it in name or in tag is not. Each call is the delivery to
    a handle that listens and is not excluded, with the handle itself as
    third argument when the caller passed no object; every such handle gets
    its delivery, and gets it once; the deliveries are made in store order;
    and an excluded handle gets none. *)
Theorem emit_reaches_listening_handles_only
    (event : string) (message : option Error) (object : option emit_object)
    (reset : bool) (filterDb : option Db) (_dbs : list Db) :
  let calls := DbStore.emit event message object reset filterDb false _dbs in
  (∀ e, e ∈ calls ↔
        ∃ i d, _dbs !! i = Some d ∧ db_listeners d event ≠ []
               ∧ (∀ f, filterDb = Some f →
                       databaseName f ≠ databaseName d ∨ tag f ≠ tag d)
               ∧ e = DbEmit i event message (emit_arg object i))
  ∧ NoDup calls
  ∧ StronglySorted lt (omap delivery_index calls)
  ∧ length calls ≤ length _dbs
  ∧ ∀ i d f, _dbs !! i = Some d → filterDb = Some f →
             databaseName f = databaseName d → tag f = tag d →
             DbEmit i event message (emit_arg object i) ∉ calls.
Proof.
  intros calls. subst calls. rewrite emit_without_rethrow.
  assert (∀ d, ¬ excluded_by filterDb d
               ↔ ∀ f, filterDb = Some f →
                      databaseName f ≠ databaseName d ∨ tag f ≠ tag d)
    as Hexcl.
  { intros d. unfold excluded_by. split.
    - intros H f ->.
      destruct (decide (databaseName f = databaseName d)) as [H1|H1];
        [|by left].
      right. intros H2. apply H. by exists f.
    - intros H (f & Hf & H1 & H2). by destruct (H f Hf). }
  assert (∀ e, e ∈ mjoin (imap (delivery event message object filterDb) _dbs)
               ↔ ∃ i d, _dbs !! i = Some d ∧ db_listeners d event ≠ []
                        ∧ (∀ f, filterDb = Some f →
                                databaseName f ≠ databaseName d
                                ∨ tag f ≠ tag d)
                        ∧ e = DbEmit i event message (emit_arg object i))
    as Hiff.
  { intros e. rewrite list_elem_of_join. split.
    - intros (l & He & Hl).
      apply elem_of_lookup_imap in Hl as (i & d & -> & Hd).
      unfold delivery in He.
      case_bool_decide as Hc; [|by apply not_elem_of_nil in He].
      destruct Hc as [Hls Hne].
      apply list_elem_of_singleton in He as ->.
      exists i, d. split; [done|]. split.
      + destruct (db_listeners d event); [simpl in Hls; lia|done].
      + split; [by apply Hexcl|done].
    - intros (i & d & Hd & Hls & Hp & ->).
      exists (delivery event message object filterDb i d). split.
      + unfold delivery. rewrite bool_decide_eq_true_2; [by left|].
        split; [destruct (db_listeners d event); [done|simpl; lia]|].
        by apply Hexcl.
      + by apply elem_of_lookup_imap_2. }
  split; [exact Hiff|].
  destruct (deliveries_in_store_order event message object filterDb _dbs 0)
    as (Hnd & Hsorted & _).
  split; [exact Hnd|]. split; [exact Hsorted|]. split.
  - assert (∀ (l : list Db) (f : nat → Db → list effect),
              (∀ i d, length (f i d) ≤ 1) →
              length (mjoin (imap f l)) ≤ length l) as Hlen.
    { induction l as [|d rest IH]; intros f Hf; [done|].
      rewrite imap_cons. simpl. rewrite length_app.
      specialize (IH (f ∘ S) ltac:(intros; apply Hf)).
      specialize (Hf 0 d). lia. }
    apply Hlen. intros i d. unfold delivery.
    case_bool_decide; simpl; lia.
  - intros i d f Hd Hf Hname Htag Hin.
    apply Hiff in Hin as (i' & d' & Hd' & _ & Hp & Heq).
    injection Heq as <-. rewrite Hd in Hd'. injection Hd' as <-.
    by destruct (Hp f Hf).
Qed.

Lemma emit_reaches_listening_handles_only_witness :
  let handle r n t evs :=
    {| db_ref := r; databaseName := Some n; tag := t;
       openCalled := Some true; db_events := evs; db_options := no_options;
       db_raw := false; bufferMaxEntries := (-1);
       _applicationClosed := false |} in
  let listening := {[ "close" := [OnListener 5] ]} in
  let a := handle 1 "listings" 10%Z listening in
  let c := handle 3 "agents" 10%Z listening in
  let twin := handle 4 "listings" 11%Z listening in
  let _dbs := [a; handle 2 "offices" 10%Z ∅; c; twin] in
  let calls := DbStore.emit "close" None None false (Some a) false _dbs in
  DbEmit 2 "close" None (PDb 2) ∈ calls
  ∧ DbEmit 3 "close" None (PDb 3) ∈ calls
  ∧ (DbEmit 0 "close" None (PDb 0) ∉ calls)
  ∧ NoDup calls.
Proof.
  intros handle listening a c twin _dbs calls.
  destruct (emit_reaches_listening_handles_only "close" None None false
              (Some a) _dbs) as (Hiff & Hnd & _ & _ & Hexcluded).
  split; [|split; [|split]].
  - apply Hiff. exists 2, c. split; [reflexivity|]. split; [discriminate|].
    split; [|reflexivity]. intros f [= <-]. left. discriminate.
  - apply Hiff. exists 3, twin. split; [reflexivity|]. split; [discriminate|].
    split; [|reflexivity]. intros f [= <-]. right. discriminate.
  - exact (Hexcluded 0 a a eq_refl eq_refl eq_refl eq_refl).
  - exact Hnd.
Defined.

Lemma db_listeners_reset (d : Db) (event : string) :
  db_listeners (reset_openCalled d) event = db_listeners d event.
Proof. unfold reset_openCalled. by destruct (openCalled d). Qed.

Lemma passes_filter_reset (filterDb : option Db) (d : Db) :
  DbStore.passes_filter filterDb (reset_openCalled d)
  = DbStore.passes_filter filterDb d.
Proof.
  unfold reset_openCalled, DbStore.passes_filter.
  by destruct (openCalled d), filterDb.
Qed.

Lemma emit_loop_reset (event : string) (message : option Error)
    (object : option emit_object) (filterDb : option Db) (_dbs : list Db) :
  ∀ i emitted,
    DbStore.emit_loop event message object filterDb i
      (map reset_openCalled _dbs) emitted
    = DbStore.emit_loop event message object filterDb i _dbs emitted.
Proof.
  induction _dbs as [|d rest IH]; intros i emitted; [done|].
  simpl. rewrite db_listeners_reset, passes_filter_reset, !IH. done.
Qed.

(** X20: a broadcast that resets the connection state leaves every tracked
    handle that has an [openCalled] flag with the flag false, changes
    nothing else of any handle (name, tag, listeners) nor the number or
    order of the handles, and makes the same calls as the broadcast
    without the reset; the registry and the buffered operations are not
    touched. *)
Theorem broadcast_reset_clears_openCalled
    (filterDb : option Db) (event : string) (message : option Error)
    (object : option emit_object) (rethrow : bool) (b : Base) :
  let r := _emitAcrossAllDbInstances filterDb event message object true
             rethrow b in
  r.2 = (_emitAcrossAllDbInstances filterDb event message object false
           rethrow b).2
  ∧ length (_dbStore r.1) = length (_dbStore b)
  ∧ (∀ i d, _dbStore b !! i = Some d →
       ∃ d', _dbStore r.1 !! i = Some d'
             ∧ openCalled d' = (fun _ => false) <$> openCalled d
             ∧ databaseName d' = databaseName d ∧ tag d' = tag d
             ∧ db_events d' = db_events d ∧ db_ref d' = db_ref d
             ∧ _applicationClosed d' = _applicationClosed d)
  ∧ _callBackStore r.1 = _callBackStore b
  ∧ _commandsStore r.1 = _commandsStore b.
Proof.
  simpl. split; [|split; [|split; [|done]]].
  - unfold DbStore.emit. destruct (negb false && rethrow); [done|].
    by rewrite emit_loop_reset.
  - apply length_map.
  - intros i d Hd. exists (reset_openCalled d). split.
    + change (map reset_openCalled (_dbStore b))
        with (reset_openCalled <$> _dbStore b).
      rewrite list_lookup_fmap. by rewrite Hd.
    + unfold reset_openCalled.
      destruct (openCalled d) eqn:Ho; simpl; rewrite ?Ho; by repeat split.
Qed.

(** * Properties of the request ids *)

(** X21: while the counter is not zero (it starts at 1 and only grows),
    [getRequestId] gives a command that has no id the value of the counter
    and moves the counter on by one, gives a command that has an id that
    id without moving the counter, and asked again returns the same id and
    leaves command and counter alone; [updateRequestId] always assigns the
    value of the counter, which no earlier call has handed out, and moves
    the counter on. The counter never goes down. *)
Theorem request_ids_are_stable_and_fresh (cmd : Command) (next_id : Z) :
  next_id ≠ 0%Z →
  let r := getRequestId cmd next_id in
  getRequestId r.1.2 r.2 = r
  ∧ requestId r.1.2 = Some r.1.1 ∧ r.1.1 ≠ 0%Z
  ∧ (next_id ≤ r.2)%Z
  ∧ (requestId cmd = None → r.1.1 = next_id ∧ r.2 = (next_id + 1)%Z)
  ∧ (∀ id, requestId cmd = Some id → id ≠ 0%Z → r = (id, cmd, next_id))
  ∧ (let u := updateRequestId r.1.2 r.2 in
     u.1.1 = r.2 ∧ u.2 = (r.2 + 1)%Z ∧ requestId u.1.2 = Some r.2
     ∧ (r.1.1 < r.2 → u.1.1 ≠ r.1.1)%Z).
Proof.
  intros Hnz. unfold getRequestId, updateRequestId.
  destruct (requestId cmd) as [id|] eqn:Hid;
    [destruct (decide (id = 0%Z)) as [->|Hne]|]; simpl; rewrite ?Hid;
    repeat (destruct (decide _); try done);
    repeat split; try done; try lia; intros; simplify_eq; done.
Qed.

Lemma request_ids_are_stable_and_fresh_witness :
  let r := getRequestId {| requestId := None; body := 3 |} 1 in
  getRequestId r.1.2 r.2 = r ∧ r.1.1 = 1%Z.
Proof.
  intros r.
  destruct (request_ids_are_stable_and_fresh
              {| requestId := None; body := 3 |} 1 ltac:(discriminate))
    as (H1 & _ & _ & _ & H2 & _).
  split; [exact H1|exact (proj1 (H2 eq_refl))].
Defined.

Lemma broadcast_reset_clears_openCalled_witness :
  let h := {| db_ref := 1; databaseName := None; tag := 10;
              openCalled := Some true;
              db_events := {[ "close" := [OnListener 5] ]};
              db_options := no_options; db_raw := false;
              bufferMaxEntries := (-1); _applicationClosed := false |} in
  let b := with_dbStore (new_Base {| obj_id := 0; obj_db := None |}) [h] in
  ∃ d', _dbStore (_emitAcrossAllDbInstances None "close" None None true
                    false b).1 !! 0 = Some d'
        ∧ openCalled d' = Some false.
Proof.
  intros h b.
  destruct (proj1 (proj2 (proj2 (broadcast_reset_clears_openCalled None
                                   "close" None None false b)))
              0 h eq_refl) as (d' & H1 & H2 & _).
  exists d'. split; [exact H1|exact H2].
Defined.

(** * Error paths of the dispatch functions *)

(** X22: what [__executeInsertCommand] does when it has no usable
    connection. With no writer checked out and no connection in the
    options it raises before it looks at the callback, and so it does when
    the connection it is given is an [Error] object: the callback is not
    called with an error in either case. With a connection that is not
    compatible with the driver it calls the callback once with "driver is
    incompatible with this server version" and neither registers nor
    writes anything, whatever the write concern. *)
Theorem insert_without_usable_connection {rt : JsRuntime}
    (self : Db) (db_command : Command) (options : Options)
    (callback : option fn) (checkoutWriter : checkout) (now next_id : Z)
    (b : Base) :
  let connection := match opt_connection options with
                    | CNull => checkoutWriter
                    | specifiedConnection => specifiedConnection
                    end in
  (connection = CNull ∨ (∃ e, connection = CErr e) →
   ∃ msg, __executeInsertCommand self db_command options callback
            checkoutWriter now next_id b = Threw msg)
  ∧ (∀ c f, connection = CConn c → isCompatible c = false →
       callback = Some f →
       __executeInsertCommand self db_command options callback
         checkoutWriter now next_id b
       = Returned (b, next_id,
                   [Call f (Some (mkError "driver is incompatible with this server version"))
                      None None])).
Proof.
  intros connection. subst connection. unfold __executeInsertCommand. split.
  - intros [H|[e H]]; rewrite H; by eexists.
  - intros c f H Hc ->. rewrite H, Hc. done.
Qed.

Lemma insert_without_usable_connection_witness :
  let self := {| db_ref := 1; databaseName := None; tag := 10;
                 openCalled := Some true; db_events := ∅;
                 db_options := no_options; db_raw := false;
                 bufferMaxEntries := (-1); _applicationClosed := false |} in
  let old := {| socketOptions_host := "rets.example.org";
                socketOptions_port := 6103;
                isConnected := true; isCompatible := false |} in
  let b := new_Base {| obj_id := 0; obj_db := None |} in
  (∃ msg, __executeInsertCommand (rt := digits_runtime) self
            {| requestId := None; body := 9 |}
            no_options (Some 1) CNull 100 5 b = Threw msg)
  ∧ __executeInsertCommand (rt := digits_runtime) self
      {| requestId := None; body := 9 |}
      no_options (Some 1) (CConn old) 100 5 b
    = Returned (b, 5%Z,
                [Call 1 (Some (mkError "driver is incompatible with this server version"))
                   None None]).
Proof.
  intros self old b. split.
  - apply (proj1 (insert_without_usable_connection (rt := digits_runtime)
                    self
                    {| requestId := None; body := 9 |} no_options (Some 1)
                    CNull 100 5 b)).
    left. reflexivity.
  - exact (proj2 (insert_without_usable_connection (rt := digits_runtime)
                    self
                    {| requestId := None; body := 9 |} no_options (Some 1)
                    (CConn old) 100 5 b) old 1 eq_refl eq_refl eq_refl).
Defined.

(** X23: what [__executeQueryCommand] does outside its successful path. A
    query with a callback, not broadcast, for which neither the options nor
    the reader checkout give a connection calls the callback once, with "no
    open connections", or with the [Error] object it was given in the place
    of a connection; it registers nothing, assigns no request id and writes
    nothing. A query without a callback never registers anything and never
    raises: it writes its command once when it has a connection and does
    nothing otherwise. *)
Theorem query_without_connection_or_callback
    (self : Db) (db_command : Command) (options : QueryOptions)
    (checkoutReader : checkout) (allRawConnections : list checkout)
    (clock : nat → Z) (next_id : Z) (b : Base) :
  let connection := match opt_connection (qo_options options) with
                    | CNull => checkoutReader
                    | specified => specified
                    end in
  (∀ f err, default false (qo_onAll options) = false →
     connection_error connection = Some err →
     __executeQueryCommand self db_command options (Some f) checkoutReader
       allRawConnections clock next_id b
     = Returned (b, db_command, next_id, [Call f (Some err) None None]))
  ∧ ∃ calls,
      __executeQueryCommand self db_command options None checkoutReader
        allRawConnections clock next_id b
      = Returned (b, db_command, next_id, calls)
      ∧ calls = match connection with
                | CConn c => [ConnectionWrite c [db_command]]
                | _ => []
                end.
Proof.
  intros connection. subst connection. unfold __executeQueryCommand. split.
  - intros f err HonAll Herr. rewrite HonAll. simpl.
    destruct (opt_connection (qo_options options)) as [|e|c];
      [destruct checkoutReader as [|e|c]| |]; simpl in Herr;
      by simplify_eq.
  - destruct (opt_connection (qo_options options)) as [|e|c];
      [destruct checkoutReader as [|e|c]| |]; by eexists.
Qed.

Lemma query_without_connection_or_callback_witness :
  let self := {| db_ref := 1; databaseName := None; tag := 10;
                 openCalled := Some true; db_events := ∅;
                 db_options := no_options; db_raw := false;
                 bufferMaxEntries := (-1); _applicationClosed := false |} in
  let options := {| qo_options := no_options; qo_onAll := None;
                    qo_exhaust := None |} in
  let b := new_Base {| obj_id := 0; obj_db := None |} in
  __executeQueryCommand self {| requestId := None; body := 9 |} options
    (Some 1) CNull [] (fun _ => 100%Z) 5 b
  = Returned (b, {| requestId := None; body := 9 |}, 5%Z,
              [Call 1 (Some (mkError "no open connections")) None None]).
Proof.
  intros self options b.
  exact (proj1 (query_without_connection_or_callback self
                  {| requestId := None; body := 9 |} options CNull []
                  (fun _ => 100%Z) 5 b)
           1 (mkError "no open connections") eq_refl eq_refl).
Defined.

Lemma onAll_loop_app (cs : list Connection) (tail : list checkout) :
  ∀ (i : nat) (f : fn) (raw0 : bool) (db_command : Command)
    (clock : nat → Z) (next_id : Z) (b : Base) b1 db_command1 next_id1 calls1,
    onAll_loop (CConn <$> cs) i f raw0 db_command clock next_id b
    = Returned (b1, db_command1, next_id1, calls1) →
    onAll_loop ((CConn <$> cs) ++ tail) i f raw0 db_command clock next_id b
    = match onAll_loop tail (i + length cs) f raw0 db_command1 clock
              next_id1 b1 with
      | Returned (b', db_command', next_id', calls) =>
          Returned (b', db_command', next_id', calls1 ++ calls)
      | Threw msg => Threw msg
      end.
Proof.
  induction cs as [|c rest IH];
    intros i f raw0 db_command clock next_id b b1 cmd1 n1 calls1 H.
  - simpl in H. injection H as <- <- <- <-. simpl. rewrite Nat.add_0_r.
    by destruct (onAll_loop tail i f raw0 db_command clock next_id b)
      as [[[[? ?] ?] ?]|].
  - cbn [fmap list_fmap onAll_loop app] in H |- *.
    destruct (_registerHandler db_command raw0 (Some c) (ExhaustFunction f)
                None (clock i) next_id b) as [[[b0 w0] n0]|]; [|done].
    destruct (updateRequestId w0 n0) as [[? cmd2] n2].
    destruct (onAll_loop (CConn <$> rest) (S i) f raw0 cmd2 clock n2 b0)
      as [[[[b3 cmd3] n3] calls3]|] eqn:Hrest; [|done].
    injection H as <- <- <- <-.
    change (list_fmap Connection checkout CConn rest) with (CConn <$> rest).
    rewrite (IH _ _ _ _ _ _ _ _ _ _ _ Hrest).
    replace (i + length (c :: rest)) with (S i + length rest) by (simpl; lia).
    by destruct (onAll_loop tail _ _ _ _ _ _ _) as [[[[? ?] ?] ?]|].
Qed.

(** X24: a broadcast that meets, after some live connections, a connection
    that is [null] or an [Error] stops there: it calls the callback once
    with the error, after the writes to the live connections before it, and
    writes to no connection after it; the entries it registered for the
    connections before it are not taken back, so the registry keeps one
    entry for each of them. *)
Theorem onAll_stops_at_dead_connection
    (self : Db) (db_command : Command) (options : QueryOptions) (f : fn)
    (checkoutReader : checkout) (cs : list Connection) (dead : checkout)
    (rest : list checkout) (err : Error) (clock : nat → Z) (next_id : Z)
    (b : Base) :
  qo_onAll options = Some true →
  requestId db_command = None → (0 < next_id)%Z → ids_below next_id b →
  connection_error dead = Some err →
  ∃ b' db_command' next_id' writes,
    __executeQueryCommand self db_command options (Some f) checkoutReader
      ((CConn <$> cs) ++ dead :: rest) clock next_id b
    = Returned (b', db_command', next_id',
                writes ++ [Call f (Some err) None None])
    ∧ size (_notReplied (_callBackStore b'))
      = size (_notReplied (_callBackStore b)) + length cs
    ∧ Forall2 (fun call c =>
                 ∃ written k i0,
                   call = ConnectionWrite c [written]
                   ∧ requestId written = Some k
                   ∧ listeners (_callBackStore b') k = [OnceWrapper f]
                   ∧ _notReplied (_callBackStore b') !! k = Some i0
                   ∧ connection i0 = Some c)
        writes cs.
Proof.
  intros HonAll Hreq Hpos Hbelow Hdead.
  pose proof (onAll_loop_registers cs 0 f
                (default (db_raw self) (opt_raw (qo_options options)))
                db_command clock next_id b) as H.
  unfold getRequestId in H. rewrite Hreq in H. simpl in H.
  destruct H as (b1 & cmd1 & n1 & writes & Hrun & Hsize & _ & Hall);
    [lia|lia|done|].
  unfold __executeQueryCommand. rewrite HonAll. simpl.
  rewrite (onAll_loop_app cs (dead :: rest) _ _ _ _ _ _ _ _ _ _ _ Hrun).
  exists b1, cmd1, n1, writes. split.
  - destruct dead as [|e|c]; simpl in Hdead; by simplify_eq.
  - split; [done|]. eapply Forall2_impl; [exact Hall|].
    intros call c (w & k & i0 & ? & ? & ? & ?). by exists w, k, i0.
Qed.

Lemma onAll_stops_at_dead_connection_witness :
  let c := {| socketOptions_host := "rets.example.org";
              socketOptions_port := 6103;
              isConnected := true; isCompatible := true |} in
  let self := {| db_ref := 1; databaseName := None; tag := 10;
                 openCalled := Some true; db_events := ∅;
                 db_options := no_options; db_raw := false;
                 bufferMaxEntries := (-1); _applicationClosed := false |} in
  let options := {| qo_options := no_options; qo_onAll := Some true;
                    qo_exhaust := None |} in
  let b := new_Base {| obj_id := 0; obj_db := None |} in
  ∃ b' db_command' next_id' writes,
    __executeQueryCommand self {| requestId := None; body := 9 |} options
      (Some 1) CNull [CConn c; CNull; CConn c] (fun _ => 100%Z) 5 b
    = Returned (b', db_command', next_id',
                writes ++ [Call 1 (Some (mkError "no open connections"))
                             None None])
    ∧ size (_notReplied (_callBackStore b')) = 1.
Proof.
  intros c self options b.
  destruct (onAll_stops_at_dead_connection self
              {| requestId := None; body := 9 |} options 1 CNull [c] CNull
              [CConn c] (mkError "no open connections") (fun _ => 100%Z) 5 b
              eq_refl eq_refl ltac:(reflexivity))
    as (b' & cmd' & n' & writes & H1 & H2 & _).
  - intros k Hk. split; apply lookup_empty.
  - reflexivity.
  - exists b', cmd', n', writes. split; [exact H1|exact H2].
Defined.
